(** * The training scheduler and agent loop of [BaseAgent]

    A shallow embedding of [fqf_iqn_qrdqn/agent/base_agent.py]: the global
    step counter, the update / target-sync / evaluation cadence, action
    selection, the training episode loop, the evaluation sweep and [run].

    The agent is a Python object mutated in place; here its attributes are
    the fields of [World] and every method is a function in a small
    state-and-exception monad.  The collaborators the agent only calls
    (environments, the morl backend, networks, replay memories, the numeric
    runtime, the abstract [learn]) are the fields of [Runtime]: a type for
    the collaborator's state and one function per method the agent calls.
    The collaborators' methods are total: an exception raised inside one
    aborts the process and is outside this development; the exceptions of the
    agent's own arithmetic (a zero divisor) are kept.  The calls the agent
    makes are also recorded, newest first, in the [trace] field.  The two
    [while True] loops and the two bounded loops take fuel, one unit per
    iteration.  Console output, tqdm progress bars and directory creation are
    left out. *)

From Stdlib Require Import ZArith QArith List Bool Lia Relations.
From Stdlib Require Ascii String.
Import ListNotations.
Local Open Scope Z_scope.

(** ** Python outcomes *)

(** The exceptions the agent's own arithmetic can raise. *)
Inductive exn : Type :=
| ZeroDivisionError.

(** A call returns, raises, or is still running when the fuel that bounds the
    iterations of its loops is used up. *)
Inductive outcome (A : Type) : Type :=
| Ok (a : A)
| Raise (e : exn)
| OutOfFuel.

Arguments Ok {A} a.
Arguments Raise {A} e.
Arguments OutOfFuel {A}.

(** The call did not raise. *)
Definition no_raise {A : Type} (o : outcome A) : Prop :=
  match o with
  | Raise _ => False
  | _ => True
  end.

(** [a % b] on Python ints: the sign follows the divisor, as [Z.modulo] does;
    a zero divisor raises. *)
Definition py_mod (a b : Z) : outcome Z :=
  if b =? 0 then Raise ZeroDivisionError else Ok (a mod b).

(** ** Collaborator state shared by the interface *)

(** A network: its parameters (the [state_dict]), the noise of its noisy
    layers and the train/eval mode flag. *)
Record Net (Params Noise : Type) : Type := mkNet {
  params : Params;
  noise : Noise;
  training : bool
}.

Arguments mkNet {Params Noise} _ _ _.
Arguments params {Params Noise} _.
Arguments noise {Params Noise} _.
Arguments training {Params Noise} _.

(** What a learning step may read and write: the online network, the noise of
    the target network, both replay memories, the global random stream and
    the [learning_steps] counter.  The target parameters are read only. *)
Record LearnState (Params Noise Mem MorlMem Rng : Type) : Type := mkLearnState {
  ls_online : Net Params Noise;
  ls_target_noise : Noise;
  ls_memory : Mem;
  ls_morl_memory : MorlMem;
  ls_rng : Rng;
  ls_learning_steps : Z
}.

Arguments mkLearnState {Params Noise Mem MorlMem Rng} _ _ _ _ _ _.
Arguments ls_online {Params Noise Mem MorlMem Rng} _.
Arguments ls_target_noise {Params Noise Mem MorlMem Rng} _.
Arguments ls_memory {Params Noise Mem MorlMem Rng} _.
Arguments ls_morl_memory {Params Noise Mem MorlMem Rng} _.
Arguments ls_rng {Params Noise Mem MorlMem Rng} _.
Arguments ls_learning_steps {Params Noise Mem MorlMem Rng} _.

(** ** The external collaborators *)

Record Runtime : Type := mkRuntime {
  (* Python floats: rewards, returns, epsilons, random draws. *)
  F : Type;
  f_zero : F;                          (* 0.0 *)
  f_one : F;                           (* 1.0 *)
  f_neg_inf : F;                       (* -np.inf *)
  f_add : F -> F -> F;
  f_sub : F -> F -> F;
  f_mul : F -> F -> F;
  f_div : F -> F -> F;                 (* float / float, divisor not 0.0 *)
  f_of_Z : Z -> F;                     (* int operand promoted to float *)
  f_ratio : Z -> Z -> F;               (* int / int, divisor not 0 *)
  f_ltb : F -> F -> bool;              (* a < b *)
  (* gym environments: env and test_env. *)
  Obs : Type;
  EnvSt : Type;
  env_reset : EnvSt -> Obs * EnvSt;
  env_step : EnvSt -> Z -> (Obs * F * bool) * EnvSt;
  action_space_sample : EnvSt -> Z * EnvSt;
  (* the morl backend: morl_env, morl_env_spec and the experience it returns. *)
  MorlSt : Type;
  MorlSpec : Type;
  Exp : Type;
  get_states_ : MorlSt -> Obs * MorlSt;
  step_ : MorlSt -> Z -> Exp * MorlSt;
  next_states : Exp -> Obs;
  rewards : Exp -> F;
  dones : Exp -> bool;
  sample_actions : MorlSpec -> Z * MorlSpec;
  (* networks; the first argument of calculate_q is use_morl(), which picks
     the forward call and the conversion of the observation to a tensor
     scaled by 1/255. *)
  Params : Type;
  Noise : Type;
  calculate_q : bool -> Net Params Noise -> Obs -> list F;
  argmax : list F -> Z;
  sample_noise : Noise -> Noise;
  reset_noise : Noise -> Noise;
  expand_dims : Obs -> Obs;            (* state[None, ...] *)
  (* replay memories. *)
  Mem : Type;
  MorlMem : Type;
  mem_append : Mem -> Obs -> Z -> F -> Obs -> bool -> Mem;
  add_ : MorlMem -> Exp -> MorlMem;
  (* np.random. *)
  Rng : Type;
  rand : Rng -> F * Rng;
  (* RunningMeanStats. *)
  Stats : Type;
  stats_append : Stats -> F -> Stats;
  (* the abstract method learn(), given the target parameters. *)
  learn : Params -> LearnState Params Noise Mem MorlMem Rng ->
          LearnState Params Noise Mem MorlMem Rng
}.

Section Agent.

Context {X : Runtime}.

Local Abbreviation F := (F X).
Local Abbreviation Obs := (Obs X).
Local Abbreviation Network := (Net (Params X) (Noise X)).

(** [x / n] with a float [x] and an int [n]. *)
Definition py_truediv (x : F) (n : Z) : outcome F :=
  if n =? 0 then Raise ZeroDivisionError else Ok (f_div X x (f_of_Z X n)).

(** [a / b] on two ints. *)
Definition py_int_truediv (a b : Z) : outcome F :=
  if b =? 0 then Raise ZeroDivisionError else Ok (f_ratio X a b).

(** ** Configuration: the constructor's keyword arguments and [use_morl()] *)

Record Config : Type := mkConfig {
  use_morl : bool;
  num_steps : Z;
  batch_size : Z;
  memory_size : Z;
  gamma : F;
  multi_step : Z;
  update_interval : Z;
  target_update_interval : Z;
  start_steps : Z;
  epsilon_train_end : F;
  epsilon_eval : F;
  epsilon_decay_steps : Z;
  noisy_net : bool;
  use_per : bool;
  log_interval : Z;
  eval_interval : Z;
  num_eval_steps : Z;
  max_episode_steps : Z
}.

(** Modelled from the spec: [LinearAnneaer] of [fqf_iqn_qrdqn.utils], which is
    not among the sources.  Spec 4.3: [get()] is
    [max(end, start - (start-end) * steps_taken/decay_steps)] and [step()]
    increments [steps_taken] by 1. *)
Record LinearAnneaer : Type := mkLinearAnneaer {
  start_value : F;
  end_value : F;
  decay_steps : Z;
  steps_taken : Z
}.

(** Modelled from the spec: [LinearAnneaer.step()], spec 4.3. *)
Definition anneaer_step (a : LinearAnneaer) : LinearAnneaer :=
  mkLinearAnneaer (start_value a) (end_value a) (decay_steps a) (steps_taken a + 1).

(** Modelled from the spec: [LinearAnneaer.get()], spec 4.3, with Python's
    [max] (the second operand wins only if it is greater) and its division
    by an int. *)
Definition anneaer_get (a : LinearAnneaer) : outcome F :=
  match py_truediv (f_mul X (f_sub X (start_value a) (end_value a))
                            (f_of_Z X (steps_taken a)))
                   (decay_steps a) with
  | Ok q =>
      let v := f_sub X (start_value a) q in
      Ok (if f_ltb X (end_value a) v then v else end_value a)
  | Raise e => Raise e
  | OutOfFuel => OutOfFuel
  end.

(** ** The replay memory built by [__init__] (lines 72-89) *)

Inductive MemoryCtor : Type :=
| LazyPrioritizedMultiStepMemory (capacity : Z) (gamma : F) (multi_step : Z) (beta_steps : F)
| LazyMultiStepMemory (capacity : Z) (gamma : F) (multi_step : Z).

(** ** The agent's attributes and the process-wide state it touches *)

Inductive save_dir : Type :=
| Final                                (* model_dir/final *)
| Best.                                (* model_dir/best *)

(** The collaborator calls recorded in the trace. *)
Inductive event : Type :=
| EnvReset
| EnvStep (action : Z)
| MorlGetStates
| MorlStep (action : Z)
| TestEnvReset
| TestEnvStep (action : Z)
| MemoryAppend (state : Obs) (action : Z) (reward : F) (next_state : Obs) (done : bool)
| MorlMemoryAdd (exp_ : Exp X)
| EpsilonStep
| UpdateTarget
| Learn
| SaveModels (dir : save_dir) (online target : Params X)
| TrainReturnAppend (episode_return : F).

Record World : Type := mkWorld {
  env : EnvSt X;
  test_env : EnvSt X;
  morl_env : MorlSt X;
  morl_env_spec : MorlSpec X;
  online_net : Network;
  target_net : Network;
  memory : Mem X;
  morl_memory : MorlMem X;
  train_return : Stats X;
  steps : Z;
  learning_steps : Z;
  episodes : Z;
  best_eval_score : F;
  epsilon_train : LinearAnneaer;
  np_random : Rng X;
  trace : list event
}.

(** Assignment to one attribute. *)
Definition set_env (v : EnvSt X) (w : World) : World :=
    mkWorld v (test_env w) (morl_env w) (morl_env_spec w) (online_net w)
    (target_net w) (memory w) (morl_memory w) (train_return w) (steps w)
    (learning_steps w) (episodes w) (best_eval_score w) (epsilon_train w)
    (np_random w) (trace w).

Definition set_test_env (v : EnvSt X) (w : World) : World :=
    mkWorld (env w) v (morl_env w) (morl_env_spec w) (online_net w)
    (target_net w) (memory w) (morl_memory w) (train_return w) (steps w)
    (learning_steps w) (episodes w) (best_eval_score w) (epsilon_train w)
    (np_random w) (trace w).

Definition set_morl_env (v : MorlSt X) (w : World) : World :=
    mkWorld (env w) (test_env w) v (morl_env_spec w) (online_net w)
    (target_net w) (memory w) (morl_memory w) (train_return w) (steps w)
    (learning_steps w) (episodes w) (best_eval_score w) (epsilon_train w)
    (np_random w) (trace w).

Definition set_morl_env_spec (v : MorlSpec X) (w : World) : World :=
    mkWorld (env w) (test_env w) (morl_env w) v (online_net w) (target_net w)
    (memory w) (morl_memory w) (train_return w) (steps w) (learning_steps w)
    (episodes w) (best_eval_score w) (epsilon_train w) (np_random w) (trace
    w).

Definition set_online_net (v : Network) (w : World) : World :=
    mkWorld (env w) (test_env w) (morl_env w) (morl_env_spec w) v (target_net
    w) (memory w) (morl_memory w) (train_return w) (steps w) (learning_steps
    w) (episodes w) (best_eval_score w) (epsilon_train w) (np_random w) (trace
    w).

Definition set_target_net (v : Network) (w : World) : World :=
    mkWorld (env w) (test_env w) (morl_env w) (morl_env_spec w) (online_net w)
    v (memory w) (morl_memory w) (train_return w) (steps w) (learning_steps w)
    (episodes w) (best_eval_score w) (epsilon_train w) (np_random w) (trace
    w).

Definition set_memory (v : Mem X) (w : World) : World :=
    mkWorld (env w) (test_env w) (morl_env w) (morl_env_spec w) (online_net w)
    (target_net w) v (morl_memory w) (train_return w) (steps w)
    (learning_steps w) (episodes w) (best_eval_score w) (epsilon_train w)
    (np_random w) (trace w).

Definition set_morl_memory (v : MorlMem X) (w : World) : World :=
    mkWorld (env w) (test_env w) (morl_env w) (morl_env_spec w) (online_net w)
    (target_net w) (memory w) v (train_return w) (steps w) (learning_steps w)
    (episodes w) (best_eval_score w) (epsilon_train w) (np_random w) (trace
    w).

Definition set_train_return (v : Stats X) (w : World) : World :=
    mkWorld (env w) (test_env w) (morl_env w) (morl_env_spec w) (online_net w)
    (target_net w) (memory w) (morl_memory w) v (steps w) (learning_steps w)
    (episodes w) (best_eval_score w) (epsilon_train w) (np_random w) (trace
    w).

Definition set_steps (v : Z) (w : World) : World :=
    mkWorld (env w) (test_env w) (morl_env w) (morl_env_spec w) (online_net w)
    (target_net w) (memory w) (morl_memory w) (train_return w) v
    (learning_steps w) (episodes w) (best_eval_score w) (epsilon_train w)
    (np_random w) (trace w).

Definition set_learning_steps (v : Z) (w : World) : World :=
    mkWorld (env w) (test_env w) (morl_env w) (morl_env_spec w) (online_net w)
    (target_net w) (memory w) (morl_memory w) (train_return w) (steps w) v
    (episodes w) (best_eval_score w) (epsilon_train w) (np_random w) (trace
    w).

Definition set_episodes (v : Z) (w : World) : World :=
    mkWorld (env w) (test_env w) (morl_env w) (morl_env_spec w) (online_net w)
    (target_net w) (memory w) (morl_memory w) (train_return w) (steps w)
    (learning_steps w) v (best_eval_score w) (epsilon_train w) (np_random w)
    (trace w).

Definition set_best_eval_score (v : F) (w : World) : World :=
    mkWorld (env w) (test_env w) (morl_env w) (morl_env_spec w) (online_net w)
    (target_net w) (memory w) (morl_memory w) (train_return w) (steps w)
    (learning_steps w) (episodes w) v (epsilon_train w) (np_random w) (trace
    w).

Definition set_epsilon_train (v : LinearAnneaer) (w : World) : World :=
    mkWorld (env w) (test_env w) (morl_env w) (morl_env_spec w) (online_net w)
    (target_net w) (memory w) (morl_memory w) (train_return w) (steps w)
    (learning_steps w) (episodes w) (best_eval_score w) v (np_random w) (trace
    w).

Definition set_np_random (v : Rng X) (w : World) : World :=
    mkWorld (env w) (test_env w) (morl_env w) (morl_env_spec w) (online_net w)
    (target_net w) (memory w) (morl_memory w) (train_return w) (steps w)
    (learning_steps w) (episodes w) (best_eval_score w) (epsilon_train w) v
    (trace w).

Definition set_trace (v : list event) (w : World) : World :=
    mkWorld (env w) (test_env w) (morl_env w) (morl_env_spec w) (online_net w)
    (target_net w) (memory w) (morl_memory w) (train_return w) (steps w)
    (learning_steps w) (episodes w) (best_eval_score w) (epsilon_train w)
    (np_random w) v.

Definition log (e : event) (w : World) : World :=
  set_trace (e :: trace w) w.

(** ** The monad of agent methods *)

Definition M (A : Type) : Type := World -> outcome (A * World).

Definition ret {A : Type} (a : A) : M A :=
  fun w => Ok (a, w).

Definition bind {A B : Type} (m : M A) (k : A -> M B) : M B :=
  fun w =>
    match m w with
    | Ok (a, w') => k a w'
    | Raise e => Raise e
    | OutOfFuel => OutOfFuel
    end.

Definition lift {A : Type} (o : outcome A) : M A :=
  fun w =>
    match o with
    | Ok a => Ok (a, w)
    | Raise e => Raise e
    | OutOfFuel => OutOfFuel
    end.

Definition get {A : Type} (f : World -> A) : M A :=
  fun w => Ok (f w, w).

Definition modify (f : World -> World) : M unit :=
  fun w => Ok (tt, f w).

Definition out_of_fuel {A : Type} : M A :=
  fun _ => OutOfFuel.

Notation "x <- m ;; k" := (bind m (fun x => k))
  (at level 61, m at next level, right associativity).
Notation "' pat <- m ;; k" := (bind m (fun x => match x with pat => k end))
  (at level 61, pat pattern, m at next level, right associativity).
Notation "m ;;; k" := (bind m (fun _ => k))
  (at level 61, right associativity).

Variable cfg : Config.

(** ** Construction (lines 72-89 and 100-125) *)

Definition make_memory : outcome MemoryCtor :=
  if use_per cfg then
    match py_int_truediv (num_steps cfg - start_steps cfg) (update_interval cfg) with
    | Ok beta_steps =>
        Ok (LazyPrioritizedMultiStepMemory (memory_size cfg) (gamma cfg)
              (multi_step cfg) beta_steps)
    | Raise e => Raise e
    | OutOfFuel => OutOfFuel
    end
  else Ok (LazyMultiStepMemory (memory_size cfg) (gamma cfg) (multi_step cfg)).

(** The attributes [__init__] sets, given the collaborators it is handed or
    builds: the environments, the networks a subclass installs, the memory
    built from [make_memory], and the random stream after seeding. *)
Definition init (env0 test_env0 : EnvSt X) (morl_env0 : MorlSt X)
    (morl_env_spec0 : MorlSpec X) (online0 target0 : Network)
    (new_memory : MemoryCtor -> Mem X) (morl_memory0 : MorlMem X)
    (train_return0 : Stats X) (rng0 : Rng X) : outcome World :=
  match make_memory with
  | Ok ctor =>
      Ok (mkWorld env0 test_env0 morl_env0 morl_env_spec0 online0 target0
            (new_memory ctor) morl_memory0 train_return0
            0 0 0 (f_neg_inf X)
            (mkLinearAnneaer (f_one X) (epsilon_train_end cfg)
               (epsilon_decay_steps cfg) 0)
            rng0 [])
  | Raise e => Raise e
  | OutOfFuel => OutOfFuel
  end.

(** ** The scheduler's predicates and the action sources *)

(** [is_update] (lines 133-136). *)
Definition is_update : M bool :=
  steps_ <- get steps ;;
  m <- lift (py_mod steps_ (update_interval cfg)) ;;
  ret ((m =? 0) && (start_steps cfg <=? steps_)).

Definition np_random_rand : M F :=
  fun w => let (u, g) := rand X (np_random w) in Ok (u, set_np_random g w).

(** [is_random] (lines 138-146). *)
Definition is_random (eval : bool) : M bool :=
  steps_ <- get steps ;;
  if steps_ <? start_steps cfg then ret true
  else if eval then
    u <- np_random_rand ;;
    ret (f_ltb X u (epsilon_eval cfg))
  else if noisy_net cfg then ret false
  else
    u <- np_random_rand ;;
    eps <- (fun w => lift (anneaer_get (epsilon_train w)) w) ;;
    ret (f_ltb X u eps).

(** [update_target] (lines 148-149): the target loads the online
    [state_dict]. *)
Definition load_online_state_dict (w : World) : World :=
  log UpdateTarget
    (set_target_net
       (mkNet (params (online_net w)) (noise (target_net w))
              (training (target_net w))) w).

Definition update_target : M unit :=
  modify load_online_state_dict.

(** [explore] (lines 151-155). *)
Definition explore : M Z :=
  if use_morl cfg then
    fun w => let (a, s) := sample_actions X (morl_env_spec w) in
             Ok (a, set_morl_env_spec s w)
  else
    fun w => let (a, e) := action_space_sample X (env w) in
             Ok (a, set_env e w).

(** [exploit] (lines 157-172). *)
Definition exploit (state : Obs) : M Z :=
  get (fun w => argmax X (calculate_q X (use_morl cfg) (online_net w) state)).

(** [save_models] (lines 178-186). *)
Definition save_models (dir : save_dir) : M unit :=
  modify (fun w =>
    log (SaveModels dir (params (online_net w)) (params (target_net w))) w).

(** [net.train()] and [net.eval()] on the online and the target network. *)
Definition online_net_mode (b : bool) : M unit :=
  modify (fun w =>
    set_online_net (mkNet (params (online_net w)) (noise (online_net w)) b) w).

Definition target_net_mode (b : bool) : M unit :=
  modify (fun w =>
    set_target_net (mkNet (params (target_net w)) (noise (target_net w)) b) w).

(** ** The evaluation sweep (lines 273-316) *)

Definition test_env_reset : M Obs :=
  fun w => let (s, e) := env_reset X (test_env w) in
           Ok (s, log TestEnvReset (set_test_env e w)).

Definition test_env_step (action : Z) : M (Obs * F * bool) :=
  fun w => let (r, e) := env_step X (test_env w) action in
           Ok (r, log (TestEnvStep action) (set_test_env e w)).

(** The action of one evaluation step (lines 285-290). *)
Definition eval_action (state : Obs) : M Z :=
  r <- is_random true ;;
  if r then explore
  else exploit (if use_morl cfg then expand_dims X state else state).

(** The inner [while] of [evaluate] (lines 284-297); it returns
    [episode_steps], [episode_return] and the sweep's [num_steps]. *)
Fixpoint eval_episode_loop (fuel : nat) (state : Obs) (done : bool)
    (episode_steps : Z) (episode_return : F) (num_steps_ : Z) : M (Z * F * Z) :=
  if negb done && (episode_steps <=? max_episode_steps cfg) then
    match fuel with
    | O => out_of_fuel
    | S fuel' =>
        action <- eval_action state ;;
        '(next_state, reward, done') <- test_env_step action ;;
        eval_episode_loop fuel' next_state done' (episode_steps + 1)
          (f_add X episode_return reward) (num_steps_ + 1)
    end
  else ret (episode_steps, episode_return, num_steps_).

(** The outer [while True] of [evaluate] (lines 279-305); it returns
    [num_episodes], [num_steps] and [total_return]. *)
Fixpoint evaluate_loop (fuel : nat) (num_episodes num_steps_ : Z)
    (total_return : F) : M (Z * Z * F) :=
  match fuel with
  | O => out_of_fuel
  | S fuel' =>
      state <- test_env_reset ;;
      '(_, episode_return, num_steps') <-
        eval_episode_loop fuel' state false 0 (f_zero X) num_steps_ ;;
      let num_episodes' := num_episodes + 1 in
      let total_return' := f_add X total_return episode_return in
      (* the progress bar's description *)
      lift (py_truediv total_return' num_episodes') ;;;
      if num_steps' >? num_eval_steps cfg
      then ret (num_episodes', num_steps', total_return')
      else evaluate_loop fuel' num_episodes' num_steps' total_return'
  end.

(** Lines 307-311: the mean return and the best-score update. *)
Definition record_eval (num_episodes : Z) (total_return : F) : M F :=
  mean_return <- lift (py_truediv total_return num_episodes) ;;
  best <- get best_eval_score ;;
  (if f_ltb X best mean_return then
     modify (set_best_eval_score mean_return) ;;;
     save_models Best
   else ret tt) ;;;
  ret mean_return.

(** [evaluate]; the value returned is [mean_return], which the source
    prints. *)
Definition evaluate (fuel : nat) : M F :=
  online_net_mode false ;;;
  '(num_episodes, _, total_return) <- evaluate_loop fuel 0 0 (f_zero X) ;;
  record_eval num_episodes total_return.

(** ** Training (lines 196-271) *)

(** [self.epsilon_train.step()]. *)
Definition epsilon_train_step (w : World) : World :=
  log EpsilonStep (set_epsilon_train (anneaer_step (epsilon_train w)) w).

(** [self.learn()]: the subclass's learning step on the part of the agent it
    may touch. *)
Definition learn_step (w : World) : World :=
  let s := learn X (params (target_net w))
             (mkLearnState (online_net w) (noise (target_net w))
                (memory w) (morl_memory w) (np_random w)
                (learning_steps w)) in
  log Learn
    (set_online_net (ls_online s)
    (set_target_net (mkNet (params (target_net w)) (ls_target_noise s)
                           (training (target_net w)))
    (set_memory (ls_memory s)
    (set_morl_memory (ls_morl_memory s)
    (set_np_random (ls_rng s)
    (set_learning_steps (ls_learning_steps s) w)))))).

(** [train_step_interval] (lines 259-271). *)
Definition train_step_interval (fuel : nat) : M unit :=
  modify epsilon_train_step ;;;
  steps_ <- get steps ;;
  m <- lift (py_mod steps_ (target_update_interval cfg)) ;;
  (if m =? 0 then update_target else ret tt) ;;;
  u <- is_update ;;
  (if u then modify learn_step else ret tt) ;;;
  steps_ <- get steps ;;
  e <- lift (py_mod steps_ (eval_interval cfg)) ;;
  if e =? 0 then
    evaluate fuel ;;;
    save_models Final ;;;
    online_net_mode true
  else ret tt.

(** The noise resampled before every action (lines 214-217). *)
Definition resample_noise : M unit :=
  modify (fun w =>
    let n := online_net w in
    set_online_net
      (mkNet (params n)
         ((if use_morl cfg then reset_noise X else sample_noise X) (noise n))
         (training n)) w).

Definition morl_get_states : M Obs :=
  fun w => let (s, e) := get_states_ X (morl_env w) in
           Ok (s, log MorlGetStates (set_morl_env e w)).

(** The action of one training step (lines 219-224). *)
Definition train_action (state : Obs) : M Z :=
  r <- is_random false ;;
  if r then explore
  else if use_morl cfg then
    s <- morl_get_states ;;
    exploit s
  else exploit state.

(** Stepping the environment and storing the transition (lines 226-240). *)
Definition step_and_store (state : Obs) (action : Z) : M (Obs * F * bool) :=
  if use_morl cfg then
    fun w =>
      let (exp_, e) := step_ X (morl_env w) action in
      let w1 := log (MorlStep action) (set_morl_env e w) in
      Ok ((next_states X exp_, rewards X exp_, dones X exp_),
          log (MorlMemoryAdd exp_)
            (set_morl_memory (add_ X (morl_memory w1) exp_) w1))
  else
    fun w =>
      let '((next_state, reward, done), e) := env_step X (env w) action in
      let w1 := log (EnvStep action) (set_env e w) in
      Ok ((next_state, reward, done),
          log (MemoryAppend state action reward next_state done)
            (set_memory
               (mem_append X (memory w1) state action reward next_state done)
               w1)).

(** One iteration of the training loop (lines 211-247); it returns
    [next_state], [reward] and [done]. *)
Definition train_iteration (fuel : nat) (state : Obs) : M (Obs * F * bool) :=
  resample_noise ;;;
  action <- train_action state ;;
  '(next_state, reward, done) <- step_and_store state action ;;
  modify (fun w => set_steps (steps w + 1) w) ;;;
  train_step_interval fuel ;;;
  ret (next_state, reward, done).

(** The [while] of [train_episode] (line 210); it returns [episode_steps] and
    [episode_return]. *)
Fixpoint train_loop (fuel : nat) (state : Obs) (done : bool)
    (episode_steps : Z) (episode_return : F) : M (Z * F) :=
  if negb done && (episode_steps <=? max_episode_steps cfg) then
    match fuel with
    | O => out_of_fuel
    | S fuel' =>
        '(next_state, reward, done') <- train_iteration fuel' state ;;
        train_loop fuel' next_state done' (episode_steps + 1)
          (f_add X episode_return reward)
    end
  else ret (episode_steps, episode_return).

(** The first observation of a training episode (lines 205-208). *)
Definition initial_state : M Obs :=
  if use_morl cfg then morl_get_states
  else
    fun w => let (s, e) := env_reset X (env w) in
             Ok (s, log EnvReset (set_env e w)).

(** [self.train_return.append(episode_return)] (line 250). *)
Definition train_return_append (episode_return : F) (w : World) : World :=
  log (TrainReturnAppend episode_return)
    (set_train_return (stats_append X (train_return w) episode_return) w).

(** [train_episode] (lines 196-257). *)
Definition train_episode (fuel : nat) : M unit :=
  online_net_mode true ;;;
  target_net_mode true ;;;
  modify (fun w => set_episodes (episodes w + 1) w) ;;;
  state <- initial_state ;;
  '(_, episode_return) <- train_loop fuel state false 0 (f_zero X) ;;
  modify (train_return_append episode_return).

(** [run] (lines 127-131). *)
Fixpoint run (fuel : nat) : M unit :=
  match fuel with
  | O => out_of_fuel
  | S fuel' =>
      train_episode fuel' ;;;
      steps_ <- get steps ;;
      if steps_ >? num_steps cfg then ret tt else run fuel'
  end.

End Agent.

Arguments Config X : clear implicits.
Arguments LinearAnneaer X : clear implicits.
Arguments MemoryCtor X : clear implicits.
Arguments event X : clear implicits.
Arguments World X : clear implicits.
Arguments M X A : clear implicits.

(** ** A small runtime on which the methods can be run

    Floats are the rationals extended with minus infinity, kept reduced.
    An environment is a counter: an episode lasts [len] steps, every step
    pays reward 1, and the observation is the position in the episode.  The
    morl environment restarts by itself after a terminal step. *)
Module Toy.

Inductive xq : Type :=
| NegInf
| Fin (q : Q).

Definition lift2 (f : Q -> Q -> Q) (a b : xq) : xq :=
  match a, b with
  | Fin x, Fin y => Fin (Qred (f x y))
  | _, _ => NegInf
  end.

Definition ltb (a b : xq) : bool :=
  match a, b with
  | NegInf, NegInf => false
  | NegInf, Fin _ => true
  | Fin _, NegInf => false
  | Fin x, Fin y => (Qnum x * Zpos (Qden y) <? Qnum y * Zpos (Qden x))%Z
  end.

Definition of_Z (n : Z) : xq := Fin (inject_Z n).

Record counter_env : Type := mkEnv {
  len : Z;
  pos : Z
}.

Definition reset (e : counter_env) : Z * counter_env :=
  (0, mkEnv (len e) 0).

Definition step (e : counter_env) (action : Z) : (Z * xq * bool) * counter_env :=
  let p := pos e + 1 in
  ((p, of_Z 1, len e <=? p), mkEnv (len e) p).

Definition morl_step (e : counter_env) (action : Z) : (Z * xq * bool) * counter_env :=
  let p := pos e + 1 in
  if len e <=? p then ((0, of_Z 1, true), mkEnv (len e) 0)
  else ((p, of_Z 1, false), mkEnv (len e) p).

(** The first index of a maximal entry; 0 on the empty list. *)
Fixpoint first_max_from (best_i : Z) (best : xq) (i : Z) (l : list xq) : Z :=
  match l with
  | [] => best_i
  | x :: t =>
      if ltb best x then first_max_from i x (i + 1) t
      else first_max_from best_i best (i + 1) t
  end.

Definition first_max (l : list xq) : Z :=
  match l with
  | [] => 0
  | x :: t => first_max_from 0 x 1 t
  end.

(** The random stream 0.0, 0.1, ..., 0.9, 0.0, ... *)
Definition cycle_rand (g : Z) : xq * Z :=
  (Fin (Qred (Qmake (g mod 10) 10)), g + 1).

(** A learning step that bumps the online parameters and its counter. *)
Definition bump_learn (target : Z) (s : LearnState Z unit (list (Z * Z * xq * Z * bool))
                                   (list (Z * xq * bool)) Z) :=
  mkLearnState (mkNet (params (ls_online s) + 1) tt (training (ls_online s)))
    tt (ls_memory s) (ls_morl_memory s) (ls_rng s) (ls_learning_steps s + 1).

Definition runtime : Runtime :=
  {| F := xq;
     f_zero := of_Z 0;
     f_one := of_Z 1;
     f_neg_inf := NegInf;
     f_add := lift2 Qplus;
     f_sub := lift2 Qminus;
     f_mul := lift2 Qmult;
     f_div := lift2 Qdiv;
     f_of_Z := of_Z;
     f_ratio := fun a b => Fin (Qred (Qdiv (inject_Z a) (inject_Z b)));
     f_ltb := ltb;
     Obs := Z;
     EnvSt := counter_env;
     env_reset := reset;
     env_step := step;
     action_space_sample := fun e => (1, e);
     MorlSt := counter_env;
     MorlSpec := unit;
     Exp := Z * xq * bool;
     get_states_ := fun e => (pos e, e);
     step_ := morl_step;
     next_states := fun x => fst (fst x);
     rewards := fun x => snd (fst x);
     dones := fun x => snd x;
     sample_actions := fun s => (1, s);
     Params := Z;
     Noise := unit;
     calculate_q := fun _ n s => [of_Z (params n); of_Z s; of_Z 0];
     argmax := first_max;
     sample_noise := fun n => n;
     reset_noise := fun n => n;
     expand_dims := fun s => s;
     Mem := list (Z * Z * xq * Z * bool);
     MorlMem := list (Z * xq * bool);
     mem_append := fun m s a r s' d => (s, a, r, s', d) :: m;
     add_ := fun m x => x :: m;
     Rng := Z;
     rand := cycle_rand;
     Stats := list xq;
     stats_append := fun s r => r :: s;
     learn := bump_learn |}.

(** A configuration with small intervals: learning starts at step 2 and
    happens every 2 steps, the target is synchronised every 3 steps, an
    evaluation sweep of more than [budget] steps runs every 4 steps. *)
Definition config (morl : bool) (budget : Z) : Config runtime :=
  @mkConfig runtime
    morl                     (* use_morl *)
    5                        (* num_steps *)
    1                        (* batch_size *)
    10                       (* memory_size *)
    (of_Z 1)                 (* gamma *)
    1                        (* multi_step *)
    2                        (* update_interval *)
    3                        (* target_update_interval *)
    2                        (* start_steps *)
    (Fin (Qmake 1 10))       (* epsilon_train *)
    (Fin (Qmake 1 10))       (* epsilon_eval *)
    4                        (* epsilon_decay_steps *)
    false                    (* noisy_net *)
    true                     (* use_per *)
    2                        (* log_interval *)
    4                        (* eval_interval *)
    budget                   (* num_eval_steps *)
    5.                       (* max_episode_steps *)

(** The defaults of [BaseAgent.__init__]; epsilon_train 0.01, epsilon_eval
    0.001, gamma 0.99. *)
Definition default_config (morl : bool) : Config runtime :=
  @mkConfig runtime
    morl                     (* use_morl *)
    50000000                 (* num_steps *)
    32                       (* batch_size *)
    1000000                  (* memory_size *)
    (Fin (Qmake 99 100))     (* gamma *)
    1                        (* multi_step *)
    4                        (* update_interval *)
    10000                    (* target_update_interval *)
    50000                    (* start_steps *)
    (Fin (Qmake 1 100))      (* epsilon_train *)
    (Fin (Qmake 1 1000))     (* epsilon_eval *)
    250000                   (* epsilon_decay_steps *)
    false                    (* noisy_net *)
    false                    (* use_per *)
    100                      (* log_interval *)
    250000                   (* eval_interval *)
    125000                   (* num_eval_steps *)
    27000.                   (* max_episode_steps *)

(** The agent before [run]: training episodes last [train_len] steps and
    evaluation episodes [test_len] steps. *)
Definition world0 (train_len test_len : Z) : World runtime :=
  @mkWorld runtime
    (mkEnv train_len 0)      (* env *)
    (mkEnv test_len 0)       (* test_env *)
    (mkEnv train_len 0)      (* morl_env *)
    tt                       (* morl_env_spec *)
    (mkNet 0 tt true)        (* online_net *)
    (mkNet 0 tt true)        (* target_net *)
    []                       (* memory *)
    []                       (* morl_memory *)
    []                       (* train_return *)
    0 0 0                    (* steps, learning_steps, episodes *)
    NegInf                   (* best_eval_score *)
    (@mkLinearAnneaer runtime (of_Z 1) (Fin (Qmake 1 10)) 4 0)
    0                        (* np_random *)
    [].                      (* trace *)

End Toy.

(** ** Vocabulary of the statements *)

Section Vocabulary.

Context {X : Runtime}.
Variable cfg : Config X.

(** The collaborator method behind a trace event. *)
Inductive call : Type :=
| CEnvReset
| CEnvStep
| CMorlGetStates
| CMorlStep
| CTestEnvReset
| CTestEnvStep
| CMemoryAppend
| CMorlMemoryAdd
| CEpsilonStep
| CUpdateTarget
| CLearn
| CSaveFinal
| CSaveBest
| CTrainReturnAppend.

Definition call_eq_dec (a b : call) : {a = b} + {a <> b}.
Proof. decide equality. Defined.

Definition call_of (e : event X) : call :=
  match e with
  | EnvReset => CEnvReset
  | EnvStep _ => CEnvStep
  | MorlGetStates => CMorlGetStates
  | MorlStep _ => CMorlStep
  | TestEnvReset => CTestEnvReset
  | TestEnvStep _ => CTestEnvStep
  | MemoryAppend _ _ _ _ _ => CMemoryAppend
  | MorlMemoryAdd _ => CMorlMemoryAdd
  | EpsilonStep => CEpsilonStep
  | UpdateTarget => CUpdateTarget
  | Learn => CLearn
  | SaveModels Final _ _ => CSaveFinal
  | SaveModels Best _ _ => CSaveBest
  | TrainReturnAppend _ => CTrainReturnAppend
  end.

(** How many times a method was called in a stretch of the trace. *)
Definition calls (c : call) (evs : list (event X)) : nat :=
  count_occ call_eq_dec (map call_of evs) c.

(** The calls the loops of an evaluation sweep make, and the calls of
    [evaluate] as a whole. *)
Definition sweep_call (c : call) : bool :=
  match c with
  | CTestEnvReset | CTestEnvStep => true
  | _ => false
  end.

Definition eval_call (c : call) : bool :=
  match c with
  | CTestEnvReset | CTestEnvStep | CSaveBest => true
  | _ => false
  end.

Definition sweep_events (evs : list (event X)) : Prop :=
  Forall (fun e => sweep_call (call_of e) = true) evs.

Definition eval_events (evs : list (event X)) : Prop :=
  Forall (fun e => eval_call (call_of e) = true) evs.

(** [w'] is [w] after more calls: the trace grew by [evs] (newest first). *)
Definition grew (w w' : World X) (evs : list (event X)) : Prop :=
  trace w' = evs ++ trace w.

(** The order in which the best score may move: any number of strict
    improvements. *)
Definition score_le : F X -> F X -> Prop :=
  clos_refl_trans (F X) (fun a b => f_ltb X a b = true).

(** The calls of one scheduler tick, and those of one training step with
    the backend that [use_morl()] selects. *)
Definition tick_call (c : call) : bool :=
  match c with
  | CEpsilonStep | CUpdateTarget | CLearn | CSaveFinal => true
  | _ => eval_call c
  end.

Definition step_call : call :=
  if use_morl cfg then CMorlStep else CEnvStep.

Definition store_call : call :=
  if use_morl cfg then CMorlMemoryAdd else CMemoryAppend.

Definition iteration_call (c : call) : bool :=
  match c with
  | CMorlGetStates | CMorlStep | CMorlMemoryAdd => use_morl cfg
  | CEnvStep | CMemoryAppend => negb (use_morl cfg)
  | _ => tick_call c
  end.

(** The only call logged while an action is chosen: the morl backend is
    asked for its current states before a greedy action. *)
Definition action_call (c : call) : bool :=
  match c with
  | CMorlGetStates => use_morl cfg
  | _ => false
  end.

(** Every event of a stretch of the trace is a call of the class [p]. *)
Definition only (p : call -> bool) (evs : list (event X)) : Prop :=
  Forall (fun e => p (call_of e) = true) evs.

(** The reward and the [done] flag of the transitions stored in a stretch of
    the trace, newest first. *)
Fixpoint stored (evs : list (event X)) : list (F X * bool) :=
  match evs with
  | [] => []
  | MemoryAppend _ _ r _ d :: t => (r, d) :: stored t
  | MorlMemoryAdd x :: t => (rewards X x, dones X x) :: stored t
  | _ :: t => stored t
  end.

(** The loop condition of an episode read along the [done] flags of its
    steps, oldest first: every step was entered with [done] false and
    [episode_steps <= max_episode_steps], and the loop was left when that
    failed. *)
Fixpoint loop_shape (done : bool) (episode_steps : Z) (ds : list bool) : Prop :=
  match ds with
  | [] => done = true \/ episode_steps > max_episode_steps cfg
  | d :: t =>
      done = false /\ episode_steps <= max_episode_steps cfg /\
      loop_shape d (episode_steps + 1) t
  end.

(** What an evaluation sweep leaves alone: every attribute but the test
    environment, the action sampler, the random stream, the mode flag of the
    online network and the best score. *)
Definition eval_frame (w w' : World X) : Prop :=
  morl_env w' = morl_env w /\
  target_net w' = target_net w /\
  memory w' = memory w /\
  morl_memory w' = morl_memory w /\
  train_return w' = train_return w /\
  steps w' = steps w /\
  learning_steps w' = learning_steps w /\
  episodes w' = episodes w /\
  epsilon_train w' = epsilon_train w /\
  params (online_net w') = params (online_net w) /\
  noise (online_net w') = noise (online_net w).

(** Everything the loops of a sweep may do to the agent: they respect
    [eval_frame], keep the best score and only call the test environment. *)
Definition sweep_effect (w w' : World X) : Prop :=
  eval_frame w w' /\
  (exists evs, grew w w' evs /\ sweep_events evs) /\
  best_eval_score w' = best_eval_score w.

(** The episodes of a sweep, oldest first, each with its number of steps and
    its return: [w'] is reached from [w] by resetting the test environment
    and running the inner loop to its end, once per entry. *)
Inductive sweep_episodes : World X -> list (Z * F X) -> World X -> Prop :=
| sweep_nil : forall w, sweep_episodes w [] w
| sweep_cons : forall w state w1 fuel n0 k r n1 w2 rest w3,
    test_env_reset w = Ok (state, w1) ->
    eval_episode_loop cfg fuel state false 0 (f_zero X) n0 w1
      = Ok ((k, r, n1), w2) ->
    sweep_episodes w2 rest w3 ->
    sweep_episodes w ((k, r) :: rest) w3.

Definition total_steps (eps : list (Z * F X)) : Z :=
  fold_left Z.add (map fst eps) 0.




(** [run] as a chain of whole training episodes: after each one but the last
    the step counter has not passed [num_steps]. *)
Inductive episode_chain : World X -> World X -> Prop :=
| chain_last : forall fuel w w1,
    train_episode cfg fuel w = Ok (tt, w1) ->
    steps w1 > num_steps cfg ->
    episode_chain w w1
| chain_more : forall fuel w w1 w2,
    train_episode cfg fuel w = Ok (tt, w1) ->
    steps w1 <= num_steps cfg ->
    episode_chain w1 w2 ->
    episode_chain w w2.


(** A method returned the value [a]; the world it returned in, [w] if it
    did not return. *)
Definition returned {A : Type} (a : A) (o : outcome (A * World X)) : Prop :=
  match o with
  | Ok (x, _) => x = a
  | _ => False
  end.

Definition final_world {A : Type} (w : World X)
    (o : outcome (A * World X)) : World X :=
  match o with
  | Ok (_, w') => w'
  | _ => w
  end.

(** Lines 270-271: the checkpoint written after a sweep and the return to
    train mode. *)
Definition save_final_and_train (w : World X) : World X :=
  let w1 := log (SaveModels Final (params (online_net w))
                   (params (target_net w))) w in
  set_online_net
    (mkNet (params (online_net w1)) (noise (online_net w1)) true) w1.

(** The three tests of a scheduler tick, on the current step counter. *)
Definition sync_due (w : World X) : bool :=
  steps w mod target_update_interval cfg =? 0.

Definition update_due (w : World X) : bool :=
  (steps w mod update_interval cfg =? 0) && (start_steps cfg <=? steps w).

Definition eval_due (w : World X) : bool :=
  steps w mod eval_interval cfg =? 0.

(** The agent after the first three stages of a tick: the epsilon step, the
    target synchronisation when due, the learning step when due. *)
Definition tick_before_eval (w : World X) : World X :=
  let w1 := epsilon_train_step w in
  let w2 := if sync_due w then load_online_state_dict w1 else w1 in
  if update_due w then learn_step w2 else w2.

(** What choosing an action and stepping the environment leave alone. *)
Definition train_frame (w w' : World X) : Prop :=
  steps w' = steps w /\
  episodes w' = episodes w /\
  train_return w' = train_return w /\
  epsilon_train w' = epsilon_train w /\
  best_eval_score w' = best_eval_score w /\
  params (online_net w') = params (online_net w) /\
  params (target_net w') = params (target_net w).

(** What the steps of a training episode do to the counters the claims are
    about, [evs] being the calls made: one epsilon step, one environment
    step and one stored transition per step taken, no change to the episode
    counter or the return statistics, and a best score that can only
    improve. *)
Definition training_effect (w w' : World X) (evs : list (event X)) : Prop :=
  grew w w' evs /\
  only iteration_call evs /\
  calls CEpsilonStep evs = length (stored evs) /\
  calls step_call evs = length (stored evs) /\
  calls store_call evs = length (stored evs) /\
  steps w' = steps w + Z.of_nat (length (stored evs)) /\
  epsilon_train w' = Nat.iter (length (stored evs)) anneaer_step (epsilon_train w) /\
  episodes w' = episodes w /\
  train_return w' = train_return w /\
  score_le (best_eval_score w) (best_eval_score w').

(** The effect of lines 309-311 on the agent once the mean is known. *)
Definition record_best (mean_return : F X) (w : World X) : World X :=
  if f_ltb X (best_eval_score w) mean_return then
    log (SaveModels Best (params (online_net w)) (params (target_net w)))
      (set_best_eval_score mean_return w)
  else w.

(** Fuel that is enough for one evaluation sweep: one unit per episode, of
    which there are at most [num_eval_steps + 1], on top of the steps of an
    episode. *)
Definition eval_fuel : nat :=
  Z.to_nat (max_episode_steps cfg + 1) + 1 + Z.to_nat (num_eval_steps cfg + 1).

(** A configuration and a schedule on which the agent's own arithmetic does
    not raise and every episode takes at least one step. *)
Definition well_configured : Prop :=
  target_update_interval cfg <> 0 /\
  update_interval cfg <> 0 /\
  eval_interval cfg <> 0 /\
  0 <= max_episode_steps cfg.

Definition schedule_ok (w : World X) : Prop :=
  decay_steps (epsilon_train w) <> 0.

(** Fuel that is enough for one training episode, and for [run] from [w]:
    every episode advances [steps] by at least one. *)
Definition episode_fuel : nat :=
  Z.to_nat (max_episode_steps cfg + 1) + eval_fuel.

Definition run_fuel (w : World X) : nat :=
  Z.to_nat (num_steps cfg + 1 - steps w) + 1 + episode_fuel.


End Vocabulary.

(** ** More of the sources *)



(** Line 24 of [train_qrdqn.py]:
    [name = args.config.split('/')[-1].rstrip('.yaml')]. *)
Module RunName.

Import Ascii String.
Local Open Scope string_scope.

(** [s.split(sep)] for a separator of one character: the pieces between the
    separators, in order; the list is never empty. *)
Fixpoint split (sep : ascii) (s : string) : list string :=
  match s with
  | EmptyString => [EmptyString]
  | String c t =>
      if Ascii.eqb c sep then EmptyString :: split sep t
      else
        match split sep t with
        | [] => [String c EmptyString]
        | piece :: pieces => String c piece :: pieces
        end
  end.

(** [c in chars]. *)
Fixpoint mem (c : ascii) (chars : string) : bool :=
  match chars with
  | EmptyString => false
  | String d t => Ascii.eqb c d || mem c t
  end.

(** [s.rstrip(chars)]: [s] without its trailing characters that occur in
    [chars]. *)
Fixpoint rstrip (chars : string) (s : string) : string :=
  match s with
  | EmptyString => EmptyString
  | String c t =>
      match rstrip chars t with
      | EmptyString => if mem c chars then EmptyString else String c EmptyString
      | String d t' => String c (String d t')
      end
  end.

Definition run_name (config : string) : string :=
  rstrip ".yaml" (List.last (split "/" config) EmptyString).

(** Every character of [s] occurs in [chars]. *)
Fixpoint all_in (chars : string) (s : string) : bool :=
  match s with
  | EmptyString => true
  | String c t => mem c chars && all_in chars t
  end.

(** The last character of [s], if any. *)
Fixpoint last_char (s : string) : option ascii :=
  match s with
  | EmptyString => None
  | String c EmptyString => Some c
  | String _ t => last_char t
  end.

End RunName.

Section MoreVocabulary.

Context {X : Runtime}.
Variable cfg : Config X.

(** Every [learn()] call in a stretch of the trace (newest first) comes
    after at least [start_steps] stored transitions, [base] of them stored
    before the stretch. *)
Fixpoint gated_from (base : Z) (evs : list (event X)) : Prop :=
  match evs with
  | [] => True
  | e :: older =>
      (call_of e = CLearn ->
       start_steps cfg <= base + Z.of_nat (length (stored older))) /\
      gated_from base older
  end.

(** The step counter counts the stored transitions. *)
Definition steps_are_stored (w : World X) : Prop :=
  steps w = Z.of_nat (length (stored (trace w))).

(** The call that starts a training episode. *)
Definition first_call : call :=
  if use_morl cfg then CMorlGetStates else CEnvReset.

(** The calls of a scheduler tick before the sweep, newest first. *)
Definition tick_events (w : World X) : list (event X) :=
  (if update_due cfg w then [Learn] else [])
  ++ (if sync_due cfg w then [UpdateTarget] else [])
  ++ [EpsilonStep].

(** The calls of [run]: those of the training steps, the call that starts
    an episode and the append to the return statistics. *)
Definition run_call (c : call) : bool :=
  match c with
  | CTrainReturnAppend => true
  | CEnvReset => negb (use_morl cfg)
  | _ => iteration_call cfg c
  end.

(** The books of a stretch [evs] of training: the step counter advanced by
    the number of stored transitions, which is also the number of epsilon
    steps, of environment steps and of memory writes; the episode counter
    advanced by the number of appended returns, each of them preceded by
    the call that starts an episode. *)
Definition ledger (w w' : World X) (evs : list (event X)) : Prop :=
  grew w w' evs /\
  only run_call evs /\
  steps w' = steps w + Z.of_nat (length (stored evs)) /\
  calls CEpsilonStep evs = length (stored evs) /\
  calls (step_call cfg) evs = length (stored evs) /\
  calls (store_call cfg) evs = length (stored evs) /\
  episodes w' = episodes w + Z.of_nat (calls CTrainReturnAppend evs) /\
  (calls CTrainReturnAppend evs <= calls first_call evs)%nat /\
  (use_morl cfg = false -> calls CEnvReset evs = calls CTrainReturnAppend evs).

End MoreVocabulary.

(** Configurations at the edges, on the small runtime: [Toy.config] with
    the intervals, the episode cap and the replay flag left open. *)
Module Edge.

Definition config (per : bool) (update target eval cap : Z) : Config Toy.runtime :=
  @mkConfig Toy.runtime
    false                    (* use_morl *)
    5                        (* num_steps *)
    1                        (* batch_size *)
    10                       (* memory_size *)
    (Toy.of_Z 1)             (* gamma *)
    1                        (* multi_step *)
    update                   (* update_interval *)
    target                   (* target_update_interval *)
    2                        (* start_steps *)
    (Toy.Fin (Qmake 1 10))   (* epsilon_train *)
    (Toy.Fin (Qmake 1 10))   (* epsilon_eval *)
    4                        (* epsilon_decay_steps *)
    false                    (* noisy_net *)
    per                      (* use_per *)
    2                        (* log_interval *)
    eval                     (* eval_interval *)
    1                        (* num_eval_steps *)
    cap.                     (* max_episode_steps *)

End Edge.

(** ** Reasoning about the monad *)

Section MonadFacts.

Context {X : Runtime}.

Lemma bind_ok {A B : Type} (m : M X A) (k : A -> M X B) w r :
  bind m k w = Ok r ->
  exists a w1, m w = Ok (a, w1) /\ k a w1 = Ok r.
Proof.
  unfold bind. destruct (m w) as [[a w1] | e |]; intro H; try discriminate.
  exists a, w1. split; [reflexivity | exact H].
Qed.

Lemma bind_eq {A B : Type} (m : M X A) (k : A -> M X B) w a w1 :
  m w = Ok (a, w1) -> bind m k w = k a w1.
Proof. unfold bind. intros ->. reflexivity. Qed.

Lemma lift_ok {A : Type} (o : outcome A) (w : World X) a w' :
  lift o w = Ok (a, w') -> o = Ok a /\ w' = w.
Proof.
  unfold lift. destruct o; intro H; try discriminate.
  inversion H. split; reflexivity.
Qed.

Lemma ret_ok {A : Type} (a b : A) (w w' : World X) :
  ret a w = Ok (b, w') -> b = a /\ w' = w.
Proof. unfold ret. intro H. inversion H. split; reflexivity. Qed.

Lemma get_ok {A : Type} (f : World X -> A) w a w' :
  get f w = Ok (a, w') -> a = f w /\ w' = w.
Proof. unfold get. intro H. inversion H. split; reflexivity. Qed.

Lemma modify_ok (f : World X -> World X) w u w' :
  modify f w = Ok (u, w') -> w' = f w.
Proof. unfold modify. intro H. inversion H. reflexivity. Qed.

Lemma returned_world {A : Type} (a : A) (w : World X)
    (o : outcome (A * World X)) :
  returned a o -> o = Ok (a, final_world w o).
Proof.
  destruct o as [[x w'] | e |]; simpl; intro H; [| contradiction | contradiction].
  rewrite H. reflexivity.
Qed.

Lemma bind_no_raise {A B : Type} (m : M X A) (k : A -> M X B) w :
  no_raise (m w) ->
  (forall a w1, m w = Ok (a, w1) -> no_raise (k a w1)) ->
  no_raise (bind m k w).
Proof.
  unfold bind. destruct (m w) as [[a w1] | e |]; intros Hm Hk.
  - apply Hk. reflexivity.
  - exact Hm.
  - exact I.
Qed.

Lemma py_mod_ok a b m :
  py_mod a b = Ok m -> b <> 0 /\ m = a mod b.
Proof.
  unfold py_mod. destruct (Z.eqb_spec b 0); intro H; try discriminate.
  inversion H. split; [assumption | reflexivity].
Qed.

Lemma py_mod_nonzero a b :
  b <> 0 -> py_mod a b = Ok (a mod b).
Proof.
  intro H. unfold py_mod. destruct (Z.eqb_spec b 0); [contradiction | reflexivity].
Qed.

Lemma py_truediv_nonzero (x : F X) n :
  n <> 0 -> py_truediv x n = Ok (f_div X x (f_of_Z X n)).
Proof.
  intro H. unfold py_truediv. destruct (Z.eqb_spec n 0); [contradiction | reflexivity].
Qed.

End MonadFacts.

(** [unbind] splits a hypothesis [H : (x <- m ;; k) w = Ok r] into the run
    of [m] and the run of the continuation; [unret] reads off the run of a
    basic action. *)
Tactic Notation "unbind" hyp(H) "as" simple_intropattern(a) ident(w1) ident(H1) :=
  apply bind_ok in H; destruct H as (a & w1 & H1 & H).

Tactic Notation "unret" hyp(H) :=
  first
    [ apply ret_ok in H; destruct H as [H ?]
    | apply get_ok in H; destruct H as [H ?]
    | apply modify_ok in H
    | apply lift_ok in H; destruct H as [H ?] ];
  repeat match type of H with
         | (_, _) = (_, _) => inversion H; clear H
         end;
  subst.

Section SchedulerFacts.

Context {X : Runtime}.
Variable cfg : Config X.

(** *** The update cadence *)

Lemma is_update_value (w : World X) :
  update_interval cfg <> 0 ->
  is_update cfg w =
    Ok ((steps w mod update_interval cfg =? 0) && (start_steps cfg <=? steps w), w).
Proof.
  intro Hnz. unfold is_update, bind, get, lift, ret.
  rewrite (py_mod_nonzero _ _ Hnz). reflexivity.
Qed.

Lemma is_update_test (w : World X) :
  (steps w mod update_interval cfg =? 0) && (start_steps cfg <=? steps w) = true <->
  steps w mod update_interval cfg = 0 /\ steps w >= start_steps cfg.
Proof. rewrite andb_true_iff, Z.eqb_eq, Z.leb_le. lia. Qed.

Lemma Ok_bool_inj (w : World X) (b c : bool) :
  @Ok (bool * World X) (b, w) = Ok (c, w) <-> b = c.
Proof. split; intro H; [inversion H | rewrite H]; reflexivity. Qed.

(** C1. With a non-zero [update_interval], [is_update()] returns, leaves the
    agent as it is, and its value is true iff [steps mod update_interval = 0]
    and [steps >= start_steps]; for [update_interval = 4] and
    [start_steps = 50000] it is true exactly when [steps >= 50000] and 4
    divides [steps], and false otherwise. *)
Theorem is_update_cadence (w : World X) :
  update_interval cfg <> 0 ->
  (exists b, is_update cfg w = Ok (b, w) /\
             (b = true <->
              steps w mod update_interval cfg = 0 /\ steps w >= start_steps cfg)) /\
  (update_interval cfg = 4 -> start_steps cfg = 50000 ->
   (is_update cfg w = Ok (true, w) <-> steps w >= 50000 /\ (4 | steps w)) /\
   (is_update cfg w = Ok (false, w) <-> ~ (steps w >= 50000 /\ (4 | steps w)))).
Proof.
  intro Hnz. split.
  - eexists. split; [apply is_update_value; assumption | apply is_update_test].
  - intros H4 H5.
    rewrite (is_update_value w Hnz), !Ok_bool_inj.
    pose proof (is_update_test w) as Ht. rewrite H4, H5 in *.
    pose proof (Z.mod_divide (steps w) 4 ltac:(lia)) as Hdiv.
    split; [tauto |].
    destruct ((steps w mod 4 =? 0) && (50000 <=? steps w)).
    + split; [discriminate | intro H; exfalso; apply H; tauto].
    + split; [intros _ H | reflexivity].
      assert (false = true) by tauto. discriminate.
Qed.

(** *** Construction *)


(** *** Action selection *)



End SchedulerFacts.

(** ** The evaluation sweep *)

Section EvaluationFacts.

Context {X : Runtime}.
Variable cfg : Config X.

Lemma sweep_effect_refl (w : World X) : sweep_effect w w.
Proof.
  split; [| split].
  - repeat split.
  - exists []. split; [reflexivity | constructor].
  - reflexivity.
Qed.

Lemma sweep_effect_trans (w1 w2 w3 : World X) :
  sweep_effect w1 w2 -> sweep_effect w2 w3 -> sweep_effect w1 w3.
Proof.
  intros (F1 & (e1 & G1 & E1) & S1) (F2 & (e2 & G2 & E2) & S2).
  split; [| split].
  - unfold eval_frame in *.
    repeat match goal with H : _ /\ _ |- _ => destruct H end.
    repeat split; etransitivity; eassumption.
  - exists (e2 ++ e1). split.
    + unfold grew in *. rewrite G2, G1. apply app_assoc.
    + apply Forall_app. split; assumption.
  - congruence.
Qed.

(** An action that changes none of the framed attributes and logs nothing. *)
Lemma sweep_effect_silent (w w' : World X) :
  eval_frame w w' ->
  trace w' = trace w ->
  best_eval_score w' = best_eval_score w ->
  sweep_effect w w'.
Proof.
  intros Hf Ht Hb. split; [exact Hf | split].
  - exists []. split; [exact Ht | constructor].
  - exact Hb.
Qed.

(** An action that logs one evaluation call. *)
Lemma sweep_effect_log (w w' : World X) (e : event X) :
  eval_frame w w' ->
  trace w' = e :: trace w ->
  sweep_call (call_of e) = true ->
  best_eval_score w' = best_eval_score w ->
  sweep_effect w w'.
Proof.
  intros Hf Ht He Hb. split; [exact Hf | split].
  - exists [e]. split; [exact Ht | constructor; [exact He | constructor]].
  - exact Hb.
Qed.

Lemma np_random_rand_effect (w : World X) u w' :
  np_random_rand w = Ok (u, w') -> sweep_effect w w'.
Proof.
  unfold np_random_rand. destruct (rand X (np_random w)) as [u0 g].
  intro H. inversion H; subst.
  apply sweep_effect_silent; repeat split.
Qed.

Lemma is_random_sweep_effect (w : World X) b w' :
  is_random cfg true w = Ok (b, w') -> sweep_effect w w'.
Proof.
  unfold is_random. intro H. unbind H as s0 w0 Hs. unret Hs.
  destruct (steps _ <? start_steps cfg).
  - unret H. apply sweep_effect_refl.
  - unbind H as u w1 Hu. unret H. eapply np_random_rand_effect; eassumption.
Qed.

Lemma explore_effect (w : World X) a w' :
  explore cfg w = Ok (a, w') -> sweep_effect w w'.
Proof.
  unfold explore. destruct (use_morl cfg).
  - destruct (sample_actions X (morl_env_spec w)) as [a0 s].
    intro H. inversion H; subst. apply sweep_effect_silent; repeat split.
  - destruct (action_space_sample X (env w)) as [a0 e].
    intro H. inversion H; subst. apply sweep_effect_silent; repeat split.
Qed.

Lemma eval_action_effect (state : Obs X) (w : World X) a w' :
  eval_action cfg state w = Ok (a, w') -> sweep_effect w w'.
Proof.
  unfold eval_action. intro H. unbind H as r w1 Hr.
  apply is_random_sweep_effect in Hr.
  eapply sweep_effect_trans; [exact Hr |].
  destruct r.
  - eapply explore_effect; eassumption.
  - unfold exploit in H. unret H. apply sweep_effect_refl.
Qed.

Lemma test_env_reset_effect (w : World X) s w' :
  test_env_reset w = Ok (s, w') -> sweep_effect w w'.
Proof.
  unfold test_env_reset. destruct (env_reset X (test_env w)) as [s0 e].
  intro H. inversion H; subst.
  eapply sweep_effect_log with (e := TestEnvReset); repeat split.
Qed.

Lemma test_env_step_effect (action : Z) (w : World X) r w' :
  test_env_step action w = Ok (r, w') -> sweep_effect w w'.
Proof.
  unfold test_env_step. destruct (env_step X (test_env w) action) as [r0 e].
  intro H. inversion H; subst.
  eapply sweep_effect_log with (e := TestEnvStep action); repeat split.
Qed.

Lemma eval_episode_loop_unfold fuel (state : Obs X) done es er ns :
  eval_episode_loop cfg fuel state done es er ns =
    if negb done && (es <=? max_episode_steps cfg) then
      match fuel with
      | O => out_of_fuel
      | S fuel' =>
          bind (eval_action cfg state) (fun action =>
          bind (test_env_step action) (fun x =>
            match x with
            | (next_state, reward, done') =>
                eval_episode_loop cfg fuel' next_state done' (es + 1)
                  (f_add X er reward) (ns + 1)
            end))
      end
    else ret (es, er, ns).
Proof. destruct fuel; reflexivity. Qed.

Lemma eval_episode_loop_effect fuel :
  forall (state : Obs X) done es er ns w res w',
    eval_episode_loop cfg fuel state done es er ns w = Ok (res, w') ->
    sweep_effect w w'.
Proof.
  induction fuel as [| fuel IH]; intros state done es er ns w res w' H;
    rewrite eval_episode_loop_unfold in H;
    destruct (negb done && (es <=? max_episode_steps cfg));
    try discriminate; try (unret H; apply sweep_effect_refl).
  unbind H as a w1 Ha. unbind H as [[next_state reward] done'] w2 Hs.
  eapply sweep_effect_trans; [eapply eval_action_effect; eassumption |].
  eapply sweep_effect_trans; [eapply test_env_step_effect; eassumption |].
  eapply IH; eassumption.
Qed.

(** The inner loop counts every step twice, in [episode_steps] and in the
    sweep's [num_steps], and it runs at least one step when it is entered
    with [done] false and [episode_steps <= max_episode_steps]. *)
Lemma eval_episode_loop_steps fuel :
  forall (state : Obs X) done es er ns w k r n1 w',
    eval_episode_loop cfg fuel state done es er ns w = Ok ((k, r, n1), w') ->
    n1 - ns = k - es /\ es <= k /\
    (done = false -> es <= max_episode_steps cfg -> es < k).
Proof.
  induction fuel as [| fuel IH]; intros state done es er ns w k r n1 w' H;
    rewrite eval_episode_loop_unfold in H;
    destruct (negb done && (es <=? max_episode_steps cfg)) eqn:Hc;
    try discriminate.
  - unret H. repeat split; try lia.
    intros -> Hle. apply Z.leb_le in Hle. simpl in Hc. congruence.
  - unbind H as a w1 Ha. unbind H as [[next_state reward] done'] w2 Hs.
    apply IH in H. lia.
  - unret H. repeat split; try lia.
    intros -> Hle. apply Z.leb_le in Hle. simpl in Hc. congruence.
Qed.

Lemma evaluate_loop_unfold fuel ne ns (tr : F X) :
  evaluate_loop cfg (S fuel) ne ns tr =
    bind test_env_reset (fun state =>
    bind (eval_episode_loop cfg fuel state false 0 (f_zero X) ns) (fun x =>
      match x with
      | (_, episode_return, ns') =>
          bind (lift (py_truediv (f_add X tr episode_return) (ne + 1))) (fun _ =>
            if ns' >? num_eval_steps cfg
            then ret (ne + 1, ns', f_add X tr episode_return)
            else evaluate_loop cfg fuel (ne + 1) ns' (f_add X tr episode_return))
      end)).
Proof. reflexivity. Qed.


Lemma evaluate_loop_effect fuel :
  forall ne ns (tr : F X) w res w',
    evaluate_loop cfg fuel ne ns tr w = Ok (res, w') ->
    sweep_effect w w'.
Proof.
  induction fuel as [| fuel IH]; intros ne ns tr w res w' H; [discriminate |].
  rewrite evaluate_loop_unfold in H.
  unbind H as s w1 Hr. unbind H as [[k r] ns'] w2 Hi.
  unbind H as d w3 Hd. unret Hd.
  eapply sweep_effect_trans; [eapply test_env_reset_effect; eassumption |].
  eapply sweep_effect_trans; [eapply eval_episode_loop_effect; eassumption |].
  destruct (ns' >? num_eval_steps cfg).
  - unret H. apply sweep_effect_refl.
  - eapply IH; eassumption.
Qed.

Lemma total_steps_cons (k : Z) (r : F X) eps :
  total_steps ((k, r) :: eps) = k + total_steps eps.
Proof.
  unfold total_steps. simpl.
  assert (Hshift : forall l a, fold_left Z.add l a = a + fold_left Z.add l 0).
  { induction l as [| x l IH]; intro a; simpl; [lia |].
    rewrite IH, (IH x). lia. }
  apply Hshift.
Qed.

(** The outer loop, read as a list of whole episodes. *)
Lemma evaluate_loop_episodes fuel :
  forall ne ns (tr : F X) w ne' ns' tr' w',
    evaluate_loop cfg fuel ne ns tr w = Ok ((ne', ns', tr'), w') ->
    exists eps,
      sweep_episodes cfg w eps w' /\
      eps <> [] /\
      ne' = ne + Z.of_nat (length eps) /\
      ns' = ns + total_steps eps /\
      tr' = fold_left (f_add X) (map snd eps) tr /\
      ns' > num_eval_steps cfg /\
      (forall p q, eps = p ++ q -> p <> [] -> q <> [] ->
                   ns + total_steps p <= num_eval_steps cfg).
Proof.
  induction fuel as [| fuel IH]; intros ne ns tr w ne' ns' tr' w' H;
    [discriminate |].
  rewrite evaluate_loop_unfold in H.
  unbind H as s w1 Hr. unbind H as [[k r] ns1] w2 Hi.
  unbind H as d w3 Hd. unret Hd.
  pose proof (eval_episode_loop_steps _ _ _ _ _ _ _ _ _ _ _ Hi) as (Hk & _ & _).
  destruct (ns1 >? num_eval_steps cfg) eqn:Hgt.
  - unret H.
    exists [(k, r)]. split; [| split; [| split; [| split; [| split; [| split]]]]].
    + eapply sweep_cons; [eassumption | eassumption | apply sweep_nil].
    + discriminate.
    + reflexivity.
    + rewrite total_steps_cons. unfold total_steps. simpl. lia.
    + reflexivity.
    + apply Z.gtb_lt in Hgt. lia.
    + intros p q Hpq Hp Hq. exfalso.
      destruct p as [| x p]; [congruence |].
      destruct p; destruct q; simpl in Hpq; congruence.
  - apply IH in H. destruct H as (eps & Hsw & Hne & Hn & Hs & Ht & Hex & Hpre).
    exists ((k, r) :: eps). split; [| split; [| split; [| split; [| split; [| split]]]]].
    + eapply sweep_cons; eassumption.
    + discriminate.
    + simpl length. lia.
    + rewrite total_steps_cons. lia.
    + exact Ht.
    + exact Hex.
    + intros p q Hpq Hp Hq.
      destruct p as [| x p]; [congruence |].
      simpl in Hpq. inversion Hpq; subst x.
      rewrite total_steps_cons.
      destruct p as [| y p].
      * unfold total_steps. simpl.
        assert (Hle : ns1 <= num_eval_steps cfg).
        { rewrite Z.gtb_ltb in Hgt. apply Z.ltb_ge in Hgt. exact Hgt. }
        lia.
      * assert (Hpre' : ns1 + total_steps (y :: p) <= num_eval_steps cfg).
        { apply (Hpre (y :: p) q); [assumption | discriminate | assumption]. }
        lia.
Qed.

Lemma evaluate_spec fuel (w : World X) mean w' :
  evaluate cfg fuel w = Ok (mean, w') ->
  exists ne ns tr w1,
    evaluate_loop cfg fuel 0 0 (f_zero X)
      (set_online_net
         (mkNet (params (online_net w)) (noise (online_net w)) false) w)
      = Ok ((ne, ns, tr), w1) /\
    ne <> 0 /\
    mean = f_div X tr (f_of_Z X ne) /\
    w' = record_best mean w1.
Proof.
  unfold evaluate, online_net_mode, record_eval. intro H.
  unbind H as u w0 Hu. unret Hu. unbind H as [[ne ns] tr] w1 Hl.
  exists ne, ns, tr, w1. split; [exact Hl |].
  unbind H as m w2 Hm. unret Hm.
  unfold py_truediv in Hm. destruct (Z.eqb_spec ne 0); [discriminate |].
  inversion Hm; subst m. split; [assumption |].
  unbind H as best w3 Hb. unret Hb. unbind H as u w4 Hs. unret H.
  split; [reflexivity |].
  unfold record_best.
  destruct (f_ltb X (best_eval_score w1) (f_div X tr (f_of_Z X ne))).
  - unbind Hs as u' w5 Hset. unret Hset. unfold save_models in Hs. unret Hs.
    reflexivity.
  - unret Hs. reflexivity.
Qed.

Lemma evaluate_sweep_effect fuel (w : World X) res w1 :
  evaluate_loop cfg fuel 0 0 (f_zero X)
    (set_online_net
       (mkNet (params (online_net w)) (noise (online_net w)) false) w)
    = Ok (res, w1) ->
  sweep_effect w w1.
Proof.
  intro H. apply evaluate_loop_effect in H.
  eapply sweep_effect_trans; [| exact H].
  apply sweep_effect_silent; repeat split.
Qed.

Lemma record_best_frame mean (w : World X) : eval_frame w (record_best mean w).
Proof.
  unfold record_best. destruct (f_ltb X (best_eval_score w) mean); repeat split.
Qed.

Lemma eval_frame_trans (w1 w2 w3 : World X) :
  eval_frame w1 w2 -> eval_frame w2 w3 -> eval_frame w1 w3.
Proof.
  unfold eval_frame. intros H1 H2.
  repeat match goal with H : _ /\ _ |- _ => destruct H end.
  repeat split; etransitivity; eassumption.
Qed.

Lemma sweep_events_eval (evs : list (event X)) :
  sweep_events evs -> eval_events evs.
Proof.
  unfold sweep_events, eval_events. apply Forall_impl.
  intros e. destruct (call_of e); simpl; congruence.
Qed.

(** [evaluate] respects the frame, makes evaluation calls only, and can only
    improve the best score. *)
Lemma evaluate_effect fuel (w : World X) mean w' :
  evaluate cfg fuel w = Ok (mean, w') ->
  eval_frame w w' /\
  (exists evs, grew w w' evs /\ eval_events evs) /\
  score_le (best_eval_score w) (best_eval_score w').
Proof.
  intro H. apply evaluate_spec in H.
  destruct H as (ne & ns & tr & w1 & Hl & _ & _ & ->).
  apply evaluate_sweep_effect in Hl.
  destruct Hl as (Hf & (evs & Hg & He) & Hb).
  split; [| split].
  - eapply eval_frame_trans; [exact Hf | apply record_best_frame].
  - unfold record_best, grew in *.
    destruct (f_ltb X (best_eval_score w1) mean).
    + eexists (_ :: evs). simpl. rewrite Hg. split; [reflexivity |].
      constructor; [reflexivity | apply sweep_events_eval; exact He].
    + exists evs. split; [exact Hg | apply sweep_events_eval; exact He].
  - unfold record_best, score_le. rewrite <- Hb.
    destruct (f_ltb X (best_eval_score w1) mean) eqn:Hlt.
    + apply rt_step. exact Hlt.
    + apply rt_refl.
Qed.

(** *** The sweep neither raises nor runs for ever *)

Lemma eval_action_total (state : Obs X) (w : World X) :
  exists a w', eval_action cfg state w = Ok (a, w').
Proof.
  unfold eval_action, is_random, bind, get, ret, np_random_rand.
  destruct (steps w <? start_steps cfg).
  - unfold explore. destruct (use_morl cfg).
    + destruct (sample_actions X (morl_env_spec w)); eauto.
    + destruct (action_space_sample X (env w)); eauto.
  - destruct (rand X (np_random w)) as [u g].
    destruct (f_ltb X u (epsilon_eval cfg)).
    + unfold explore. destruct (use_morl cfg); simpl.
      * destruct (sample_actions X (morl_env_spec w)); eauto.
      * destruct (action_space_sample X (env w)); eauto.
    + unfold exploit, get. eauto.
Qed.

Lemma test_env_step_total (action : Z) (w : World X) :
  exists r w', test_env_step action w = Ok (r, w').
Proof.
  unfold test_env_step. destruct (env_step X (test_env w) action); eauto.
Qed.

Lemma test_env_reset_total (w : World X) :
  exists s w', test_env_reset w = Ok (s, w').
Proof.
  unfold test_env_reset. destruct (env_reset X (test_env w)); eauto.
Qed.

Lemma eval_episode_loop_no_raise fuel :
  forall (state : Obs X) done es er ns w,
    no_raise (eval_episode_loop cfg fuel state done es er ns w).
Proof.
  induction fuel as [| fuel IH]; intros; rewrite eval_episode_loop_unfold;
    destruct (negb done && (es <=? max_episode_steps cfg)); try exact I.
  destruct (eval_action_total state w) as (a & w1 & Ha).
  rewrite (bind_eq _ _ _ _ _ Ha).
  destruct (test_env_step_total a w1) as ([[s r] d] & w2 & Hs).
  rewrite (bind_eq _ _ _ _ _ Hs). apply IH.
Qed.

Lemma eval_episode_loop_total fuel :
  forall (state : Obs X) done es er ns w,
    (Z.to_nat (max_episode_steps cfg + 1 - es) <= fuel)%nat ->
    exists res w', eval_episode_loop cfg fuel state done es er ns w = Ok (res, w').
Proof.
  induction fuel as [| fuel IH]; intros state done es er ns w Hfuel;
    rewrite eval_episode_loop_unfold;
    destruct (negb done && (es <=? max_episode_steps cfg)) eqn:Hc;
    try (unfold ret; eauto; fail);
    apply andb_true_iff in Hc; destruct Hc as [_ Hc]; apply Z.leb_le in Hc.
  - lia.
  - destruct (eval_action_total state w) as (a & w1 & Ha).
    rewrite (bind_eq _ _ _ _ _ Ha).
    destruct (test_env_step_total a w1) as ([[s r] d] & w2 & Hs).
    rewrite (bind_eq _ _ _ _ _ Hs). apply IH. lia.
Qed.

Lemma evaluate_loop_no_raise fuel :
  forall ne ns (tr : F X) w,
    0 <= ne -> no_raise (evaluate_loop cfg fuel ne ns tr w).
Proof.
  induction fuel as [| fuel IH]; intros ne ns tr w Hne; [exact I |].
  rewrite evaluate_loop_unfold.
  destruct (test_env_reset_total w) as (s & w1 & Hr).
  rewrite (bind_eq _ _ _ _ _ Hr).
  pose proof (eval_episode_loop_no_raise fuel s false 0 (f_zero X) ns w1) as Hi.
  unfold bind at 1.
  destruct (eval_episode_loop cfg fuel s false 0 (f_zero X) ns w1)
    as [[[[k r] ns1] w2] | e |]; try exact Hi; try exact I.
  unfold bind, lift. rewrite py_truediv_nonzero by lia.
  destruct (ns1 >? num_eval_steps cfg); [exact I | apply IH; lia].
Qed.

Lemma evaluate_loop_total fuel :
  forall ne ns (tr : F X) w,
    0 <= max_episode_steps cfg -> 0 <= ne ->
    (Z.to_nat (max_episode_steps cfg + 1) + 1
     + Z.to_nat (num_eval_steps cfg + 1 - ns) <= fuel)%nat ->
    exists res w', evaluate_loop cfg fuel ne ns tr w = Ok (res, w').
Proof.
  induction fuel as [| fuel IH]; intros ne ns tr w Hmax Hne Hfuel; [lia |].
  rewrite evaluate_loop_unfold.
  destruct (test_env_reset_total w) as (s & w1 & Hr).
  rewrite (bind_eq _ _ _ _ _ Hr).
  destruct (eval_episode_loop_total fuel s false 0 (f_zero X) ns w1)
    as ([[k r] ns1] & w2 & Hi); [lia |].
  rewrite (bind_eq _ _ _ _ _ Hi).
  apply eval_episode_loop_steps in Hi. destruct Hi as (Hk & _ & Hpos).
  specialize (Hpos eq_refl Hmax).
  unfold bind, lift. rewrite py_truediv_nonzero by lia.
  destruct (ns1 >? num_eval_steps cfg) eqn:Hgt; [unfold ret; eauto |].
  rewrite Z.gtb_ltb in Hgt. apply Z.ltb_ge in Hgt.
  apply IH; lia.
Qed.

Lemma record_eval_total ne (tr : F X) (w : World X) :
  ne <> 0 -> exists mean w', record_eval ne tr w = Ok (mean, w').
Proof.
  intro Hne. unfold record_eval, bind, lift, get.
  rewrite py_truediv_nonzero by assumption.
  destruct (f_ltb X (best_eval_score w) (f_div X tr (f_of_Z X ne)));
    unfold modify, save_models, ret; simpl; eauto.
Qed.

Lemma evaluate_loop_count fuel ns (tr : F X) w ne' ns' tr' w' :
  evaluate_loop cfg fuel 0 ns tr w = Ok ((ne', ns', tr'), w') -> 1 <= ne'.
Proof.
  intro H. apply evaluate_loop_episodes in H.
  destruct H as (eps & _ & Hnil & Hn & _).
  destruct eps; [congruence | simpl length in Hn; lia].
Qed.

Lemma evaluate_no_raise fuel (w : World X) : no_raise (evaluate cfg fuel w).
Proof.
  unfold evaluate. apply bind_no_raise; [exact I |].
  intros u w0 _. apply bind_no_raise.
  - apply evaluate_loop_no_raise. lia.
  - intros [[ne ns] tr] w1 Hl. apply evaluate_loop_count in Hl.
    destruct (record_eval_total ne tr w1) as (mean & w' & ->); [lia | exact I].
Qed.

Lemma evaluate_total fuel (w : World X) :
  0 <= max_episode_steps cfg ->
  (eval_fuel cfg <= fuel)%nat ->
  exists mean w', evaluate cfg fuel w = Ok (mean, w').
Proof.
  intros Hmax Hfuel. unfold eval_fuel in Hfuel. unfold evaluate.
  erewrite bind_eq by reflexivity.
  edestruct (evaluate_loop_total fuel 0 0 (f_zero X)) as ([[ne ns] tr] & w1 & Hl);
    [exact Hmax | lia | | rewrite (bind_eq _ _ _ _ _ Hl)].
  - rewrite Z.sub_0_r. exact Hfuel.
  - apply evaluate_loop_count in Hl. apply record_eval_total. lia.
Qed.


(** *** The sweep does not look at the training epsilon *)














(** *** What the sweep guarantees *)



(** C10. [evaluate()] never raises: whenever the sweep's loop is left at
    least one episode has been counted, whatever [num_eval_steps] is, so the
    mean [total_return / num_episodes] is defined; and with
    [max_episode_steps >= 0] the loop is left. *)
Theorem evaluate_mean_is_defined (w : World X) :
  (forall fuel, no_raise (evaluate cfg fuel w)) /\
  (forall fuel ne ns tr w1,
     evaluate_loop cfg fuel 0 0 (f_zero X) w = Ok ((ne, ns, tr), w1) ->
     1 <= ne /\ py_truediv tr ne = Ok (f_div X tr (f_of_Z X ne))) /\
  (0 <= max_episode_steps cfg ->
   exists mean w', evaluate cfg (eval_fuel cfg) w = Ok (mean, w')).
Proof.
  split; [| split].
  - intro fuel. apply evaluate_no_raise.
  - intros fuel ne ns tr w1 H. apply evaluate_loop_count in H.
    split; [exact H | apply py_truediv_nonzero; lia].
  - intro Hmax. apply evaluate_total; [exact Hmax | apply Nat.le_refl].
Qed.

End EvaluationFacts.

(** ** Training *)

Section TrainingFacts.

Context {X : Runtime}.
Variable cfg : Config X.

(** *** Counting calls *)

Lemma calls_app (c : call) (a b : list (event X)) :
  calls c (a ++ b) = (calls c a + calls c b)%nat.
Proof. unfold calls. rewrite map_app, count_occ_app. reflexivity. Qed.

Lemma only_app (p : call -> bool) (a b : list (event X)) :
  only p a -> only p b -> only p (a ++ b).
Proof. intros Ha Hb. apply Forall_app. split; assumption. Qed.

Lemma only_weaken (p q : call -> bool) (evs : list (event X)) :
  (forall c, p c = true -> q c = true) -> only p evs -> only q evs.
Proof. intros Hpq. apply Forall_impl. intros e. apply Hpq. Qed.

Lemma only_calls (p : call -> bool) (c : call) (evs : list (event X)) :
  only p evs -> p c = false -> calls c evs = 0%nat.
Proof.
  intros Hev Hc. unfold calls. induction Hev as [| e evs He _ IH]; [reflexivity |].
  simpl. destruct (call_eq_dec (call_of e) c) as [Heq | _]; [| exact IH].
  rewrite Heq in He. congruence.
Qed.

Lemma stored_app (a b : list (event X)) :
  stored (a ++ b) = stored a ++ stored b.
Proof.
  induction a as [| e a IH]; [reflexivity |].
  destruct e; simpl; rewrite IH; reflexivity.
Qed.

Lemma only_tick_stored (evs : list (event X)) :
  only tick_call evs -> stored evs = [].
Proof.
  induction 1 as [| e evs He _ IH]; [reflexivity |].
  destruct e; simpl in *; try discriminate; exact IH.
Qed.

Lemma tick_call_iteration (c : call) :
  tick_call c = true -> iteration_call cfg c = true.
Proof. destruct c; simpl; intro H; try discriminate; reflexivity. Qed.

Lemma eval_call_tick (c : call) : eval_call c = true -> tick_call c = true.
Proof. destruct c; simpl; intro H; try discriminate; reflexivity. Qed.

(** *** One scheduler tick *)

Lemma train_step_interval_spec fuel (w : World X) u w' :
  train_step_interval cfg fuel w = Ok (u, w') ->
  target_update_interval cfg <> 0 /\
  update_interval cfg <> 0 /\
  eval_interval cfg <> 0 /\
  if eval_due cfg w then
    exists mean w4,
      evaluate cfg fuel (tick_before_eval cfg w) = Ok (mean, w4) /\
      w' = save_final_and_train w4
  else w' = tick_before_eval cfg w.
Proof.
  unfold train_step_interval, is_update. intro H.
  unbind H as u0 w0 H0. unret H0.
  unbind H as s1 w1 H1. unret H1.
  unbind H as m w1 Hm. unret Hm. apply py_mod_ok in Hm. destruct Hm as [Htui ->].
  change (steps (epsilon_train_step w)) with (steps w) in H.
  unbind H as u2 w2 H2.
  unbind H as upd w3 H3.
  unbind H3 as s3 w3' H3'. unret H3'.
  unbind H3 as m3 w3' H3'. unret H3'. apply py_mod_ok in H3'.
  destruct H3' as [Hui ->]. unret H3.
  unbind H as u4 w4 H4.
  unbind H as s5 w5 H5. unret H5.
  unbind H as m5 w5 H5. unret H5. apply py_mod_ok in H5. destruct H5 as [Hei ->].
  split; [exact Htui | split; [exact Hui | split; [exact Hei |]]].
  unfold eval_due, tick_before_eval, update_due, sync_due.
  destruct (steps w mod target_update_interval cfg =? 0);
    [unfold update_target in H2 |]; unret H2;
    match type of H4 with
    | context [steps ?w0] => change (steps w0) with (steps w) in *
    end;
    destruct ((steps w mod update_interval cfg =? 0) && (start_steps cfg <=? steps w));
    unret H4;
    match type of H with
    | context [steps ?w0] => change (steps w0) with (steps w) in *
    end;
    destruct (steps w mod eval_interval cfg =? 0);
    try (unret H; reflexivity).
  all: unbind H as mean w6 H6; unbind H as u7 w7 H7;
    unfold save_models in H7; unret H7; unfold online_net_mode in H; unret H;
    exists mean, w6; split; [exact H6 | reflexivity].
Qed.

Lemma calls_cons (c : call) (e : event X) (evs : list (event X)) :
  calls c (e :: evs) =
    ((if call_eq_dec (call_of e) c then 1 else 0) + calls c evs)%nat.
Proof.
  unfold calls. simpl. destruct (call_eq_dec (call_of e) c); reflexivity.
Qed.

Lemma tick_before_eval_effect (w : World X) :
  exists evs,
    grew w (tick_before_eval cfg w) evs /\
    only tick_call evs /\
    calls CEpsilonStep evs = 1%nat /\
    calls CUpdateTarget evs = (if sync_due cfg w then 1 else 0)%nat /\
    calls CLearn evs = (if update_due cfg w then 1 else 0)%nat /\
    calls CSaveFinal evs = 0%nat.
Proof.
  unfold tick_before_eval.
  exists ((if update_due cfg w then [Learn] else [])
          ++ (if sync_due cfg w then [UpdateTarget] else [])
          ++ [EpsilonStep]).
  destruct (update_due cfg w); destruct (sync_due cfg w);
    (split; [reflexivity |]); (split; [repeat constructor |]);
    repeat split.
Qed.

Lemma tick_before_eval_frame (w : World X) :
  steps (tick_before_eval cfg w) = steps w /\
  episodes (tick_before_eval cfg w) = episodes w /\
  train_return (tick_before_eval cfg w) = train_return w /\
  epsilon_train (tick_before_eval cfg w) = anneaer_step (epsilon_train w) /\
  best_eval_score (tick_before_eval cfg w) = best_eval_score w /\
  params (target_net (tick_before_eval cfg w)) =
    (if sync_due cfg w then params (online_net w) else params (target_net w)).
Proof.
  unfold tick_before_eval.
  destruct (update_due cfg w); destruct (sync_due cfg w); repeat split.
Qed.

(** What one call of [train_step_interval] does. *)
Lemma train_step_interval_effect fuel (w : World X) u w' :
  train_step_interval cfg fuel w = Ok (u, w') ->
  exists evs,
    grew w w' evs /\
    only tick_call evs /\
    calls CEpsilonStep evs = 1%nat /\
    calls CUpdateTarget evs = (if sync_due cfg w then 1 else 0)%nat /\
    calls CLearn evs = (if update_due cfg w then 1 else 0)%nat /\
    calls CSaveFinal evs = (if eval_due cfg w then 1 else 0)%nat /\
    steps w' = steps w /\
    episodes w' = episodes w /\
    train_return w' = train_return w /\
    epsilon_train w' = anneaer_step (epsilon_train w) /\
    score_le (best_eval_score w) (best_eval_score w') /\
    params (target_net w') =
      (if sync_due cfg w then params (online_net w) else params (target_net w)).
Proof.
  intro H. apply train_step_interval_spec in H.
  destruct H as (_ & _ & _ & H).
  destruct (tick_before_eval_effect w) as (evs & Hg & Ho & He & Hu & Hl & Hs).
  destruct (tick_before_eval_frame w) as (F1 & F2 & F3 & F4 & F5 & F6).
  destruct (eval_due cfg w).
  - destruct H as (mean & w4 & Hev & ->).
    apply evaluate_effect in Hev.
    destruct Hev as (Hf & (evs' & Hg' & Ho') & Hsc).
    unfold eval_frame in Hf.
    repeat match goal with H : _ /\ _ |- _ => destruct H end.
    exists (SaveModels Final (params (online_net w4)) (params (target_net w4))
            :: evs' ++ evs).
    split; [| split; [| repeat split]].
    + unfold grew in *. simpl. rewrite Hg', Hg. rewrite app_assoc. reflexivity.
    + constructor; [reflexivity |].
      apply only_app; [| exact Ho].
      eapply only_weaken; [apply eval_call_tick | exact Ho'].
    + rewrite calls_cons, calls_app, He. simpl.
      rewrite (only_calls eval_call) by easy. reflexivity.
    + rewrite calls_cons, calls_app, Hu. simpl.
      rewrite (only_calls eval_call) by easy. reflexivity.
    + rewrite calls_cons, calls_app, Hl. simpl.
      rewrite (only_calls eval_call) by easy. reflexivity.
    + rewrite calls_cons, calls_app, Hs. simpl.
      rewrite (only_calls eval_call) by easy. reflexivity.
    + simpl. congruence.
    + simpl. congruence.
    + simpl. congruence.
    + simpl. congruence.
    + simpl. rewrite <- F5. exact Hsc.
    + simpl. congruence.
  - subst w'. exists evs. repeat split; try assumption.
    rewrite F5. apply rt_refl.
Qed.


(** *** One training step *)

Lemma train_frame_trans (w1 w2 w3 : World X) :
  train_frame w1 w2 -> train_frame w2 w3 -> train_frame w1 w3.
Proof.
  unfold train_frame. intros H1 H2.
  repeat match goal with H : _ /\ _ |- _ => destruct H end.
  repeat split; etransitivity; eassumption.
Qed.

Lemma explore_train_frame (w : World X) a w' :
  explore cfg w = Ok (a, w') -> train_frame w w' /\ trace w' = trace w.
Proof.
  unfold explore. destruct (use_morl cfg).
  - destruct (sample_actions X (morl_env_spec w)) as [a0 s0].
    intro H. inversion H; subst. repeat split.
  - destruct (action_space_sample X (env w)) as [a0 e0].
    intro H. inversion H; subst. repeat split.
Qed.

Lemma is_random_train_frame (w : World X) b w' :
  is_random cfg false w = Ok (b, w') -> train_frame w w' /\ trace w' = trace w.
Proof.
  unfold is_random. intro H. unbind H as s0 w0 Hs. unret Hs.
  destruct (steps _ <? start_steps cfg); [unret H; repeat split |].
  destruct (noisy_net cfg); [unret H; repeat split |].
  unbind H as u w1 Hu. unbind H as eps w2 He. unret H.
  unfold np_random_rand in Hu. destruct (rand X (np_random w)) as [u0 g].
  inversion Hu; subst u0 w1. clear Hu.
  unfold lift in He. destruct (anneaer_get _); try discriminate.
  inversion He; subst. repeat split.
Qed.

Lemma morl_get_states_effect (w : World X) s w' :
  morl_get_states w = Ok (s, w') ->
  train_frame w w' /\ trace w' = MorlGetStates :: trace w.
Proof.
  unfold morl_get_states. destruct (get_states_ X (morl_env w)) as [s0 e].
  intro H. inversion H; subst. repeat split.
Qed.

Lemma train_action_effect (state : Obs X) (w : World X) a w' :
  train_action cfg state w = Ok (a, w') ->
  exists evs,
    grew w w' evs /\ only (action_call cfg) evs /\ train_frame w w'.
Proof.
  unfold train_action. intro H. unbind H as r w1 Hr.
  apply is_random_train_frame in Hr. destruct Hr as [Hf Ht].
  destruct r.
  - apply explore_train_frame in H. destruct H as [Hf' Ht'].
    exists []. split; [unfold grew; simpl; congruence | split; [constructor |]].
    eapply train_frame_trans; eassumption.
  - destruct (use_morl cfg) eqn:Hmorl.
    + unbind H as s w2 Hs. apply morl_get_states_effect in Hs.
      destruct Hs as [Hf' Ht']. unfold exploit in H. unret H.
      exists [MorlGetStates].
      split; [unfold grew; simpl; congruence | split].
      * constructor; [simpl; exact Hmorl | constructor].
      * eapply train_frame_trans; eassumption.
    + unfold exploit in H. unret H.
      exists []. split; [unfold grew; simpl; congruence | split; [constructor |]].
      exact Hf.
Qed.

Lemma step_and_store_effect (state : Obs X) (action : Z) (w : World X)
    next_state reward done w' :
  step_and_store cfg state action w = Ok ((next_state, reward, done), w') ->
  exists e_store e_step,
    trace w' = e_store :: e_step :: trace w /\
    call_of e_store = store_call cfg /\
    call_of e_step = step_call cfg /\
    stored [e_store; e_step] = [(reward, done)] /\
    train_frame w w' /\
    (use_morl cfg = false ->
       e_step = EnvStep action /\
       e_store = MemoryAppend state action reward next_state done /\
       memory w' = mem_append X (memory w) state action reward next_state done) /\
    (use_morl cfg = true ->
       exists exp_,
         e_step = MorlStep action /\
         e_store = MorlMemoryAdd exp_ /\
         (next_state, reward, done)
           = (next_states X exp_, rewards X exp_, dones X exp_) /\
         morl_memory w' = add_ X (morl_memory w) exp_).
Proof.
  unfold step_and_store, store_call, step_call.
  destruct (use_morl cfg).
  - destruct (step_ X (morl_env w) action) as [exp_ e] eqn:Hstep.
    intro H. inversion H; subst. clear H.
    exists (MorlMemoryAdd exp_), (MorlStep action).
    repeat split; try discriminate.
    intros _. exists exp_. repeat split.
  - destruct (env_step X (env w) action) as [[[ns r] d] e] eqn:Hstep.
    intro H. inversion H; subst. clear H.
    exists (MemoryAppend state action reward next_state done), (EnvStep action).
    repeat split; try discriminate.
Qed.

Lemma store_step_calls (c : call) (e_store e_step : event X) :
  call_of e_store = store_call cfg ->
  call_of e_step = step_call cfg ->
  only (iteration_call cfg) [e_store; e_step] /\
  calls CEpsilonStep [e_store; e_step] = 0%nat /\
  calls (step_call cfg) [e_store; e_step] = 1%nat /\
  calls (store_call cfg) [e_store; e_step] = 1%nat /\
  calls CUpdateTarget [e_store; e_step] = 0%nat /\
  calls CLearn [e_store; e_step] = 0%nat.
Proof.
  intros Hst Hsp. unfold store_call, step_call in *.
  destruct (use_morl cfg) eqn:Hm;
    (split; [repeat constructor; unfold iteration_call;
             rewrite ?Hst, ?Hsp, Hm; reflexivity |]);
    unfold calls; simpl; rewrite Hst, Hsp; repeat split.
Qed.

Lemma action_calls (evs : list (event X)) :
  only (action_call cfg) evs ->
  only (iteration_call cfg) evs /\
  stored evs = [] /\
  calls CEpsilonStep evs = 0%nat /\
  calls (step_call cfg) evs = 0%nat /\
  calls (store_call cfg) evs = 0%nat /\
  calls CUpdateTarget evs = 0%nat /\
  calls CLearn evs = 0%nat.
Proof.
  intro H. split; [| split].
  - eapply only_weaken; [| exact H].
    intros c. destruct c; simpl; intro Hc; try discriminate; exact Hc.
  - induction H as [| e evs He _ IH]; [reflexivity |].
    destruct e; simpl in *; try discriminate; exact IH.
  - unfold step_call, store_call.
    repeat split; apply (only_calls _ _ _ H); destruct (use_morl cfg); reflexivity.
Qed.

Lemma tick_calls (evs : list (event X)) :
  only tick_call evs ->
  only (iteration_call cfg) evs /\
  stored evs = [] /\
  calls (step_call cfg) evs = 0%nat /\
  calls (store_call cfg) evs = 0%nat.
Proof.
  intro H. split; [| split].
  - eapply only_weaken; [apply tick_call_iteration | exact H].
  - apply only_tick_stored. exact H.
  - unfold step_call, store_call.
    split; apply (only_calls _ _ _ H); destruct (use_morl cfg); reflexivity.
Qed.


(** What one iteration of the training loop does. *)
Lemma train_iteration_effect fuel (state : Obs X) (w : World X)
    next_state reward done w' :
  train_iteration cfg fuel state w = Ok ((next_state, reward, done), w') ->
  exists evs,
    training_effect cfg w w' evs /\
    stored evs = [(reward, done)] /\
    calls CUpdateTarget evs =
      (if (steps w + 1) mod target_update_interval cfg =? 0
       then 1%nat else 0%nat) /\
    calls CLearn evs =
      (if ((steps w + 1) mod update_interval cfg =? 0)
          && (start_steps cfg <=? steps w + 1) then 1%nat else 0%nat) /\
    params (target_net w') =
      (if (steps w + 1) mod target_update_interval cfg =? 0
       then params (online_net w) else params (target_net w)) /\
    (use_morl cfg = false ->
       exists action,
         In (MemoryAppend state action reward next_state done) evs) /\
    (use_morl cfg = true ->
       exists exp_,
         In (MorlMemoryAdd exp_) evs /\
         (next_state, reward, done)
           = (next_states X exp_, rewards X exp_, dones X exp_)).
Proof.
  unfold train_iteration. intro H.
  unbind H as u0 w0 H0. unfold resample_noise in H0. unret H0.
  unbind H as action w1 Ha.
  apply train_action_effect in Ha. destruct Ha as (A & HgA & HoA & HfA).
  unbind H as [[ns r] d] w2 Hs.
  apply step_and_store_effect in Hs.
  destruct Hs as (e_store & e_step & HgS & Hst & Hsp & HsS & HfS & Hplain & Hmorl).
  unbind H as u3 w3 H3. unret H3.
  unbind H as u4 w4 Ht. unret H.
  apply train_step_interval_effect in Ht.
  destruct Ht as (T & HgT & HoT & HeT & HuT & HlT & _ & T1 & T2 & T3 & T4 & T5 & T6).
  destruct (action_calls A HoA) as (A1 & A2 & A3 & A4 & A5 & A6 & A7).
  destruct (tick_calls T HoT) as (K1 & K2 & K3 & K4).
  destruct (store_step_calls CEpsilonStep e_store e_step Hst Hsp)
    as (S1 & S2 & S3 & S4 & S5 & S6).
  unfold train_frame in HfA, HfS. simpl in HfA.
  destruct HfA as (FA1 & FA2 & FA3 & FA4 & FA5 & FA6 & FA7).
  destruct HfS as (FS1 & FS2 & FS3 & FS4 & FS5 & FS6 & FS7).
  unfold sync_due, update_due in *.
  simpl in HgT, HuT, HlT, T1, T2, T3, T4, T5, T6.
  rewrite FS1, FA1 in *.
  exists (T ++ [e_store; e_step] ++ A).
  assert (Hstored : stored (T ++ [e_store; e_step] ++ A) = [(r, d)]).
  { rewrite !stored_app, K2, A2, HsS. reflexivity. }
  split; [| split; [exact Hstored | split; [| split; [| split; [| split]]]]].
  - unfold training_effect. rewrite Hstored. simpl length.
    split; [| split; [| split; [| split; [| split; [| split; [| split; [| split; [| split]]]]]]]].
    + unfold grew in *. simpl in *. rewrite HgT. simpl. rewrite HgS, HgA.
      rewrite <- app_assoc. reflexivity.
    + apply only_app; [exact K1 | apply only_app; [exact S1 | exact A1]].
    + rewrite !calls_app, HeT, S2, A3. reflexivity.
    + rewrite !calls_app, K3, S3, A4. reflexivity.
    + rewrite !calls_app, K4, S4, A5. reflexivity.
    + rewrite T1. reflexivity.
    + rewrite T4. simpl. congruence.
    + congruence.
    + congruence.
    + rewrite <- FA5, <- FS5. exact T5.
  - rewrite !calls_app, HuT, S5, A6. rewrite Nat.add_0_r. reflexivity.
  - rewrite !calls_app, HlT, S6, A7. rewrite Nat.add_0_r. reflexivity.
  - rewrite T6, FS6, FS7, FA6, FA7. reflexivity.
  - intro Hm. destruct (Hplain Hm) as (_ & -> & _).
    exists action. apply in_or_app. right. left. reflexivity.
  - intro Hm. destruct (Hmorl Hm) as (exp_ & _ & -> & Heq & _).
    exists exp_. split; [apply in_or_app; right; left; reflexivity | exact Heq].
Qed.


(** *** The training loop and the episode *)

Lemma training_effect_refl (w : World X) : training_effect cfg w w [].
Proof.
  unfold training_effect, grew. simpl.
  repeat split; try lia; try apply rt_refl. constructor.
Qed.

Lemma training_effect_trans (w1 w2 w3 : World X) (e1 e2 : list (event X)) :
  training_effect cfg w1 w2 e1 -> training_effect cfg w2 w3 e2 ->
  training_effect cfg w1 w3 (e2 ++ e1).
Proof.
  unfold training_effect, grew.
  intros (G1 & O1 & A1 & B1 & C1 & S1 & E1 & P1 & R1 & L1)
         (G2 & O2 & A2 & B2 & C2 & S2 & E2 & P2 & R2 & L2).
  rewrite stored_app, length_app, !calls_app.
  split; [| split; [| split; [| split; [| split; [| split; [| split; [| split; [| split]]]]]]]].
  - rewrite G2, G1. apply app_assoc.
  - apply only_app; assumption.
  - lia.
  - lia.
  - lia.
  - lia.
  - rewrite E2, E1. symmetry. apply Nat.iter_add.
  - congruence.
  - congruence.
  - eapply rt_trans; eassumption.
Qed.

Lemma train_loop_unfold fuel (state : Obs X) done es er :
  train_loop cfg fuel state done es er =
    if negb done && (es <=? max_episode_steps cfg) then
      match fuel with
      | O => out_of_fuel
      | S fuel' =>
          bind (train_iteration cfg fuel' state) (fun x =>
            match x with
            | (next_state, reward, done') =>
                train_loop cfg fuel' next_state done' (es + 1) (f_add X er reward)
            end)
      end
    else ret (es, er).
Proof. destruct fuel; reflexivity. Qed.

Lemma loop_condition_false done es :
  negb done && (es <=? max_episode_steps cfg) = false ->
  done = true \/ es > max_episode_steps cfg.
Proof.
  intro H. apply andb_false_iff in H. destruct H as [H | H].
  - left. destruct done; [reflexivity | discriminate].
  - right. apply Z.leb_gt in H. lia.
Qed.

Lemma loop_condition_true done es :
  negb done && (es <=? max_episode_steps cfg) = true ->
  done = false /\ es <= max_episode_steps cfg.
Proof.
  intro H. apply andb_true_iff in H. destruct H as [H1 H2].
  split; [destruct done; [discriminate | reflexivity] | apply Z.leb_le; exact H2].
Qed.

(** The loop of an episode: its steps have the effect of [training_effect],
    the returned [episode_steps] and [episode_return] count and add up the
    stored transitions, and the loop ran exactly while its condition held. *)
Lemma train_loop_effect fuel :
  forall (state : Obs X) done es er w es' er' w',
    train_loop cfg fuel state done es er w = Ok ((es', er'), w') ->
    exists evs,
      training_effect cfg w w' evs /\
      es' = es + Z.of_nat (length (stored evs)) /\
      er' = fold_left (f_add X) (rev (map fst (stored evs))) er /\
      loop_shape cfg done es (rev (map snd (stored evs))).
Proof.
  induction fuel as [| fuel IH]; intros state done es er w es' er' w' H;
    rewrite train_loop_unfold in H;
    destruct (negb done && (es <=? max_episode_steps cfg)) eqn:Hc;
    try discriminate.
  - unret H. exists []. simpl.
    split; [apply training_effect_refl | split; [lia | split; [reflexivity |]]].
    apply loop_condition_false. exact Hc.
  - unbind H as [[s1 r1] d1] w1 Hi.
    apply train_iteration_effect in Hi.
    destruct Hi as (e1 & T1 & S1 & _).
    apply IH in H. destruct H as (e2 & T2 & Hes & Her & Hshape).
    exists (e2 ++ e1).
    split; [eapply training_effect_trans; eassumption |].
    rewrite stored_app, S1, length_app, !map_app, !rev_app_distr. simpl.
    split; [lia | split; [exact Her |]].
    apply loop_condition_true in Hc. destruct Hc as [Hd He].
    split; [exact Hd | split; [exact He | exact Hshape]].
  - unret H. exists []. simpl.
    split; [apply training_effect_refl | split; [lia | split; [reflexivity |]]].
    apply loop_condition_false. exact Hc.
Qed.

Lemma initial_state_effect (w : World X) state w' :
  initial_state cfg w = Ok (state, w') ->
  trace w' = (if use_morl cfg then MorlGetStates else EnvReset) :: trace w /\
  train_frame w w'.
Proof.
  unfold initial_state. destruct (use_morl cfg).
  - intro H. apply morl_get_states_effect in H. tauto.
  - destruct (env_reset X (env w)) as [s e]. intro H. inversion H; subst.
    repeat split.
Qed.

(** What one call of [train_episode] does. *)
Lemma train_episode_effect fuel (w : World X) u w' :
  train_episode cfg fuel w = Ok (u, w') ->
  exists evs episode_return,
    trace w' =
      TrainReturnAppend episode_return
        :: evs ++ (if use_morl cfg then MorlGetStates else EnvReset)
        :: trace w /\
    only (iteration_call cfg) evs /\
    calls CEpsilonStep evs = length (stored evs) /\
    calls (step_call cfg) evs = length (stored evs) /\
    calls (store_call cfg) evs = length (stored evs) /\
    steps w' = steps w + Z.of_nat (length (stored evs)) /\
    epsilon_train w' = Nat.iter (length (stored evs)) anneaer_step (epsilon_train w) /\
    episodes w' = episodes w + 1 /\
    train_return w' = stats_append X (train_return w) episode_return /\
    episode_return = fold_left (f_add X) (rev (map fst (stored evs))) (f_zero X) /\
    loop_shape cfg false 0 (rev (map snd (stored evs))) /\
    score_le (best_eval_score w) (best_eval_score w').
Proof.
  unfold train_episode, online_net_mode, target_net_mode. intro H.
  unbind H as u0 w0 H0. unret H0.
  unbind H as u1 w1 H1. unret H1.
  unbind H as u2 w2 H2. unret H2.
  unbind H as state w3 Hs.
  apply initial_state_effect in Hs. destruct Hs as [Ht0 Hf].
  unbind H as [es er] w4 Hl. unret H.
  apply train_loop_effect in Hl.
  destruct Hl as (evs & Heff & _ & Her & Hshape).
  unfold training_effect, grew in Heff.
  destruct Heff as (G & O & A & B & C & S & E & P & R & L).
  unfold train_frame in Hf. simpl in Hf, Ht0.
  destruct Hf as (F1 & F2 & F3 & F4 & F5 & _).
  exists evs, er.
  split; [| split; [exact O | split; [exact A | split; [exact B | split; [exact C |]]]]].
  - simpl. rewrite G, Ht0. reflexivity.
  - simpl. rewrite S, E, P, R, F1, F2, F3, F4.
    split; [reflexivity | split; [reflexivity | split; [reflexivity |
    split; [reflexivity | split; [exact Her | split; [exact Hshape |]]]]]].
    rewrite <- F5. exact L.
Qed.


(** *** [run] *)

Lemma run_unfold fuel :
  run cfg (S fuel) =
    bind (train_episode cfg fuel) (fun _ =>
    bind (get steps) (fun steps_ =>
      if steps_ >? num_steps cfg then ret tt else run cfg fuel)).
Proof. reflexivity. Qed.

(** [run] is a chain of whole episodes that ends at the first episode
    boundary with [steps > num_steps]; the best score only improves. *)
Lemma run_effect fuel :
  forall (w : World X) u w',
    run cfg fuel w = Ok (u, w') ->
    episode_chain cfg w w' /\
    steps w' > num_steps cfg /\
    score_le (best_eval_score w) (best_eval_score w').
Proof.
  induction fuel as [| fuel IH]; intros w u w' H; [discriminate |].
  rewrite run_unfold in H.
  unbind H as u1 w1 He. destruct u1.
  unbind H as s w2 Hs. unret Hs.
  pose proof (train_episode_effect _ _ _ _ He) as (evs & r & Heff).
  assert (Hsc : score_le (best_eval_score w) (best_eval_score w1)) by tauto.
  clear Heff.
  destruct (steps w1 >? num_steps cfg) eqn:Hgt.
  - unret H. apply Z.gtb_lt in Hgt.
    split; [eapply chain_last; [eassumption | lia] | split; [lia | exact Hsc]].
  - rewrite Z.gtb_ltb in Hgt. apply Z.ltb_ge in Hgt.
    apply IH in H. destruct H as (Hch & Hst & Hsc').
    split; [eapply chain_more; eassumption | split; [exact Hst |]].
    eapply rt_trans; eassumption.
Qed.

(** *** Training returns *)

Lemma explore_total (w : World X) : exists a w', explore cfg w = Ok (a, w').
Proof.
  unfold explore. destruct (use_morl cfg).
  - destruct (sample_actions X (morl_env_spec w)); eauto.
  - destruct (action_space_sample X (env w)); eauto.
Qed.

Lemma is_random_train_total (w : World X) :
  schedule_ok w -> exists b w', is_random cfg false w = Ok (b, w').
Proof.
  intro Hd. unfold is_random, bind, get.
  destruct (steps w <? start_steps cfg); [unfold ret; eauto |].
  destruct (noisy_net cfg); [unfold ret; eauto |].
  unfold np_random_rand. destruct (rand X (np_random w)) as [u g].
  unfold lift, anneaer_get. simpl.
  rewrite py_truediv_nonzero by exact Hd. unfold ret. eauto.
Qed.

Lemma train_action_total (state : Obs X) (w : World X) :
  schedule_ok w -> exists a w', train_action cfg state w = Ok (a, w').
Proof.
  intro Hd. unfold train_action.
  destruct (is_random_train_total w Hd) as (b & w1 & Hr).
  rewrite (bind_eq _ _ _ _ _ Hr).
  destruct b; [apply explore_total |].
  destruct (use_morl cfg); [| unfold exploit, get; eauto].
  unfold bind, morl_get_states.
  destruct (get_states_ X (morl_env w1)). unfold exploit, get. eauto.
Qed.

Lemma step_and_store_total (state : Obs X) (action : Z) (w : World X) :
  exists r w', step_and_store cfg state action w = Ok (r, w').
Proof.
  unfold step_and_store. destruct (use_morl cfg).
  - destruct (step_ X (morl_env w) action). eauto.
  - destruct (env_step X (env w) action) as [[[ns r] d] e]. eauto.
Qed.

Lemma train_step_interval_total fuel (w : World X) :
  well_configured cfg ->
  (eval_fuel cfg <= fuel)%nat ->
  exists w', train_step_interval cfg fuel w = Ok (tt, w').
Proof.
  intros (Htui & Hui & Hei & Hmax) Hfuel.
  unfold train_step_interval, is_update.
  unfold bind at 1, modify.
  unfold bind at 1, get.
  unfold bind at 1, lift. rewrite (py_mod_nonzero _ _ Htui).
  match goal with
  | |- exists w', bind ?m _ ?w0 = _ =>
      assert (Hs : exists w1, m w0 = Ok (tt, w1) /\ steps w1 = steps w)
  end.
  { destruct (_ =? 0); [unfold update_target, modify | unfold ret]; eauto. }
  destruct Hs as (w1 & Hs & Hst). rewrite (bind_eq _ _ _ _ _ Hs).
  unfold bind at 1. unfold bind at 1, get.
  unfold bind at 1, lift. rewrite (py_mod_nonzero _ _ Hui). unfold ret at 1.
  match goal with
  | |- exists w', bind ?m _ ?w0 = _ =>
      assert (Hl : exists w2, m w0 = Ok (tt, w2) /\ steps w2 = steps w)
  end.
  { destruct (_ && _); [unfold modify | unfold ret]; eauto. }
  destruct Hl as (w2 & Hl & Hst2). rewrite (bind_eq _ _ _ _ _ Hl).
  unfold bind at 1, get.
  unfold bind at 1, lift. rewrite (py_mod_nonzero _ _ Hei).
  destruct (steps w2 mod eval_interval cfg =? 0); [| unfold ret; eauto].
  destruct (evaluate_total cfg fuel w2 Hmax Hfuel) as (mean & w3 & Hev).
  rewrite (bind_eq _ _ _ _ _ Hev).
  unfold bind, save_models, online_net_mode, modify. eauto.
Qed.

Lemma train_iteration_total fuel (state : Obs X) (w : World X) :
  well_configured cfg -> schedule_ok w ->
  (eval_fuel cfg <= fuel)%nat ->
  exists r w', train_iteration cfg fuel state w = Ok (r, w').
Proof.
  intros Hcfg Hd Hfuel. unfold train_iteration.
  unfold bind at 1, resample_noise, modify.
  match goal with
  | |- exists r w', bind (train_action _ _) _ ?w0 = _ =>
      destruct (train_action_total state w0 Hd) as (a & w1 & Ha)
  end.
  rewrite (bind_eq _ _ _ _ _ Ha).
  destruct (step_and_store_total state a w1) as ([[ns r] d] & w2 & Hs).
  rewrite (bind_eq _ _ _ _ _ Hs).
  unfold bind at 1, modify.
  match goal with
  | |- exists r w', bind (train_step_interval _ _) _ ?w0 = _ =>
      destruct (train_step_interval_total fuel w0 Hcfg Hfuel) as (w3 & Ht)
  end.
  rewrite (bind_eq _ _ _ _ _ Ht). unfold ret. eauto.
Qed.

Lemma decay_steps_iter n (a : LinearAnneaer X) :
  decay_steps (Nat.iter n anneaer_step a) = decay_steps a.
Proof. induction n as [| n IH]; [reflexivity | simpl; exact IH]. Qed.

Lemma training_effect_schedule (w w' : World X) evs :
  training_effect cfg w w' evs -> schedule_ok w -> schedule_ok w'.
Proof.
  unfold training_effect, schedule_ok.
  intros (_ & _ & _ & _ & _ & _ & E & _). rewrite E, decay_steps_iter. tauto.
Qed.

Lemma train_loop_total fuel :
  forall (state : Obs X) done es er w,
    well_configured cfg -> schedule_ok w ->
    (Z.to_nat (max_episode_steps cfg + 1 - es) + eval_fuel cfg <= fuel)%nat ->
    exists r w', train_loop cfg fuel state done es er w = Ok (r, w').
Proof.
  induction fuel as [| fuel IH]; intros state done es er w Hcfg Hd Hfuel;
    rewrite train_loop_unfold;
    destruct (negb done && (es <=? max_episode_steps cfg)) eqn:Hc;
    try (unfold ret; eauto; fail);
    apply loop_condition_true in Hc; destruct Hc as [_ Hc].
  - lia.
  - destruct (train_iteration_total fuel state w Hcfg Hd) as ([[ns r] d] & w1 & Hi);
      [lia |].
    rewrite (bind_eq _ _ _ _ _ Hi).
    apply train_iteration_effect in Hi. destruct Hi as (evs & Heff & _).
    apply IH; [exact Hcfg | eapply training_effect_schedule; eassumption | lia].
Qed.

Lemma train_episode_total fuel (w : World X) :
  well_configured cfg -> schedule_ok w ->
  (episode_fuel cfg <= fuel)%nat ->
  exists w', train_episode cfg fuel w = Ok (tt, w').
Proof.
  intros Hcfg Hd Hfuel. unfold episode_fuel in Hfuel. unfold train_episode.
  unfold bind at 1, online_net_mode, modify.
  unfold bind at 1, target_net_mode, modify.
  unfold bind at 1, modify.
  match goal with
  | |- exists w', bind (initial_state _) _ ?w0 = _ =>
      assert (Hi : exists s w1, initial_state cfg w0 = Ok (s, w1) /\
                                schedule_ok w1)
  end.
  { unfold initial_state, morl_get_states. destruct (use_morl cfg); simpl.
    - destruct (get_states_ X (morl_env w)). eauto.
    - destruct (env_reset X (env w)). eauto. }
  destruct Hi as (s & w1 & Hi & Hd1). rewrite (bind_eq _ _ _ _ _ Hi).
  destruct (train_loop_total fuel s false 0 (f_zero X) w1 Hcfg Hd1)
    as ([es er] & w2 & Hl); [rewrite Z.sub_0_r; exact Hfuel |].
  rewrite (bind_eq _ _ _ _ _ Hl). unfold modify. eauto.
Qed.

(** An episode takes at least one step when [max_episode_steps >= 0]. *)
Lemma train_episode_progress fuel (w : World X) u w' :
  0 <= max_episode_steps cfg ->
  train_episode cfg fuel w = Ok (u, w') ->
  steps w < steps w' /\ (schedule_ok w -> schedule_ok w').
Proof.
  intros Hmax H. apply train_episode_effect in H.
  destruct H as (evs & r & _ & _ & _ & _ & _ & Hs & He & _ & _ & _ & Hshape & _).
  split.
  - destruct (stored evs) as [| x l]; simpl in Hshape.
    + destruct Hshape as [Hf | Hgt]; [discriminate | lia].
    + rewrite Hs. simpl length. lia.
  - unfold schedule_ok. rewrite He, decay_steps_iter. tauto.
Qed.

Lemma run_total fuel :
  forall (w : World X),
    well_configured cfg -> schedule_ok w ->
    (run_fuel cfg w <= fuel)%nat ->
    exists w', run cfg fuel w = Ok (tt, w').
Proof.
  induction fuel as [| fuel IH]; intros w Hcfg Hd Hfuel;
    unfold run_fuel in Hfuel; [lia |].
  rewrite run_unfold.
  destruct (train_episode_total fuel w Hcfg Hd) as (w1 & He); [lia |].
  rewrite (bind_eq _ _ _ _ _ He).
  destruct Hcfg as (Htui & Hui & Hei & Hmax).
  destruct (train_episode_progress _ _ _ _ Hmax He) as [Hlt Hd1].
  unfold bind, get.
  destruct (steps w1 >? num_steps cfg) eqn:Hgt; [unfold ret; eauto |].
  rewrite Z.gtb_ltb in Hgt. apply Z.ltb_ge in Hgt.
  apply IH; [repeat split; assumption | apply Hd1; exact Hd |].
  unfold run_fuel. lia.
Qed.


(** *** What training guarantees *)



(** C5. [update_target()] overwrites the target parameters with the online
    ones and leaves the online network as it is.  A training step calls it
    exactly when the step counter, after its increment, is a multiple of
    [target_update_interval]: then the target ends the step with the online
    parameters the step started with, and otherwise with its own. *)
Theorem target_sync_cadence :
  (forall w : World X,
     update_target w = Ok (tt, load_online_state_dict w) /\
     params (target_net (load_online_state_dict w)) = params (online_net w) /\
     online_net (load_online_state_dict w) = online_net w) /\
  (forall fuel state (w : World X) r w',
     train_iteration cfg fuel state w = Ok (r, w') ->
     steps w' = steps w + 1 /\
     target_update_interval cfg <> 0 /\
     exists evs,
       grew w w' evs /\
       (steps w' mod target_update_interval cfg = 0 ->
          calls CUpdateTarget evs = 1%nat /\
          params (target_net w') = params (online_net w)) /\
       (steps w' mod target_update_interval cfg <> 0 ->
          calls CUpdateTarget evs = 0%nat /\
          params (target_net w') = params (target_net w))).
Proof.
  split; [intro w; repeat split |].
  intros fuel state w [[ns r] d] w' H.
  assert (Htui : target_update_interval cfg <> 0).
  { unfold train_iteration in H.
    unbind H as u0 w0 H0. unbind H as a w1 H1. unbind H as x w2 H2.
    destruct x as [[ns' r'] d']. unbind H as u3 w3 H3. unbind H as u4 w4 H4.
    apply train_step_interval_spec in H4. tauto. }
  apply train_iteration_effect in H.
  destruct H as (evs & Heff & Hst & Hu & _ & Hp & _).
  unfold training_effect in Heff. rewrite Hst in Heff. simpl in Heff.
  destruct Heff as (G & _ & _ & _ & _ & S & _).
  split; [exact S | split; [exact Htui |]].
  exists evs. split; [exact G |]. rewrite S.
  destruct (Z.eqb_spec ((steps w + 1) mod target_update_interval cfg) 0) as [Hz | Hnz].
  - split; [intros _; split; assumption | intro Hc; contradiction].
  - split; [intro Hc; contradiction | intros _; split; assumption].
Qed.

(** C6. An evaluation sweep writes the best checkpoint exactly when its
    mean return is greater than the best score so far, saving the current
    parameters and making that mean the best score; otherwise score and
    checkpoint stay.  The best score starts at minus infinity and, over an
    episode and over a whole run, only moves by strict improvements. *)
Theorem best_score_tracking :
  (forall fuel (w : World X) mean w',
     evaluate cfg fuel w = Ok (mean, w') ->
     exists evs,
       calls CSaveBest evs = 0%nat /\
       if f_ltb X (best_eval_score w) mean then
         best_eval_score w' = mean /\
         trace w' =
           SaveModels Best (params (online_net w)) (params (target_net w))
             :: evs ++ trace w
       else
         best_eval_score w' = best_eval_score w /\
         trace w' = evs ++ trace w) /\
  (forall fuel (w : World X) u w',
     train_episode cfg fuel w = Ok (u, w') ->
     score_le (best_eval_score w) (best_eval_score w')) /\
  (forall fuel (w : World X) u w',
     run cfg fuel w = Ok (u, w') ->
     score_le (best_eval_score w) (best_eval_score w')) /\
  (forall env0 test_env0 morl_env0 spec0 online0 target0 new_memory
          morl_memory0 train_return0 rng0 w0,
     init cfg env0 test_env0 morl_env0 spec0 online0 target0 new_memory
       morl_memory0 train_return0 rng0 = Ok w0 ->
     best_eval_score w0 = f_neg_inf X).
Proof.
  split; [| split; [| split]].
  - intros fuel w mean w' H. apply evaluate_spec in H.
    destruct H as (ne & ns & tr & w1 & Hl & _ & _ & ->).
    apply evaluate_sweep_effect in Hl.
    destruct Hl as (Hf & (evs & Hg & Hev) & Hb).
    unfold eval_frame in Hf.
    destruct Hf as (_ & Ftg & _ & _ & _ & _ & _ & _ & _ & Fon & _).
    exists evs. split; [apply (only_calls sweep_call _ _ Hev); reflexivity |].
    unfold record_best, grew in *. rewrite Hb.
    destruct (f_ltb X (best_eval_score w) mean).
    + split; [reflexivity |]. simpl. rewrite Hg, Ftg, Fon. reflexivity.
    + split; [exact Hb | exact Hg].
  - intros fuel w u w' H. apply train_episode_effect in H.
    destruct H as (evs & r & H). tauto.
  - intros fuel w u w' H. apply run_effect in H. tauto.
  - intros until w0. unfold init.
    destruct (make_memory cfg); try discriminate.
    intro H. inversion H. reflexivity.
Qed.

(** C7. Whenever [run()] returns, [steps > num_steps], and what it ran is a
    chain of whole training episodes after each of which, but the last,
    [steps <= num_steps]: the test is made between episodes only.  On a
    configuration whose intervals are non-zero and whose episodes take at
    least one step, [run()] does return. *)
Theorem run_returns_past_num_steps :
  (forall fuel (w : World X) u w',
     run cfg fuel w = Ok (u, w') ->
     steps w' > num_steps cfg /\ episode_chain cfg w w') /\
  (forall w : World X,
     well_configured cfg -> schedule_ok w ->
     exists w', run cfg (run_fuel cfg w) w = Ok (tt, w')).
Proof.
  split.
  - intros fuel w u w' H. apply run_effect in H. tauto.
  - intros w Hcfg Hd. apply run_total; [exact Hcfg | exact Hd | apply Nat.le_refl].
Qed.

End TrainingFacts.

(** ** Concrete runs *)

Section ToyRuns.

Import Toy.

Local Abbreviation cfg1 := (config false 1).
Local Abbreviation w0 := (world0 3 1).

(** With the constructor's defaults: an update at step 50004, none at 50002
    (not a multiple of 4) and none at 49996 (before [start_steps]). *)
Lemma is_update_cadence_witness :
  update_interval (default_config true) <> 0 /\
  is_update (default_config true) (set_steps 50004 w0)
    = Ok (true, set_steps 50004 w0) /\
  is_update (default_config true) (set_steps 50002 w0)
    = Ok (false, set_steps 50002 w0) /\
  is_update (default_config true) (set_steps 49996 w0)
    = Ok (false, set_steps 49996 w0).
Proof.
  assert (Hnz : update_interval (default_config true) <> 0) by discriminate.
  split; [exact Hnz |].
  pose proof (fun w =>
    proj2 (is_update_cadence (default_config true) w Hnz)
      eq_refl eq_refl) as H.
  split; [| split].
  - apply (proj1 (H _)). simpl. split; [lia | exists 12501; reflexivity].
  - apply (proj2 (H _)). simpl. intros [_ [k Hk]]. lia.
  - apply (proj2 (H _)). simpl. intros [Hge _]. lia.
Defined.







(** The sweep of [cfg1] from [w0]: two episodes of one step. *)
Lemma evaluate_mean_witness :
  0 <= max_episode_steps cfg1 /\
  no_raise (evaluate cfg1 0 w0) /\
  (exists w1,
     evaluate_loop cfg1 5 0 0 (of_Z 0) w0 = Ok ((2, 2, Fin 2), w1) /\
     1 <= 2 /\
     py_truediv (Fin 2 : F runtime) 2 = Ok (Fin 1)) /\
  exists mean w', evaluate cfg1 (eval_fuel cfg1) w0 = Ok (mean, w').
Proof.
  pose proof (evaluate_mean_is_defined cfg1 w0) as (Hnr & Hcount & Htot).
  split; [discriminate | split; [apply Hnr | split]].
  - assert (Hl : exists w1,
               evaluate_loop cfg1 5 0 0 (of_Z 0) w0 = Ok ((2, 2, Fin 2), w1))
      by (eexists; apply (returned_world _ w0); vm_compute; reflexivity).
    destruct Hl as (w1 & Hl). exists w1. split; [exact Hl |].
    destruct (Hcount _ _ _ _ _ Hl) as [Hone Hdiv].
    split; [exact Hone | exact Hdiv].
  - apply Htot. discriminate.
Defined.




(** A step from 2 to 3 with [target_update_interval = 3]: the target takes
    the online parameters (5) the step started with; the learning step that
    follows in the same tick moves the online parameters on. *)
Lemma target_sync_witness :
  exists r w' evs,
    train_iteration cfg1 9 0
        (@set_online_net runtime (mkNet 5 tt true) (set_steps 2 w0)) = Ok (r, w') /\
    steps w' = 3 /\
    grew (@set_online_net runtime (mkNet 5 tt true) (set_steps 2 w0)) w' evs /\
    calls CUpdateTarget evs = 1%nat /\
    params (target_net w') = 5.
Proof.
  assert (Hi : exists r w',
             train_iteration cfg1 9 0
               (@set_online_net runtime (mkNet 5 tt true) (set_steps 2 w0))
             = Ok (r, w'))
    by (eexists; eexists; apply (returned_world _ w0); vm_compute;
        reflexivity).
  destruct Hi as (r & w' & Hi).
  destruct (proj2 (target_sync_cadence cfg1) _ _ _ _ _ Hi)
    as (Hs & _ & evs & Hg & Hdue & _).
  exists r, w', evs. split; [exact Hi | split; [exact Hs | split; [exact Hg |]]].
  apply Hdue. rewrite Hs. reflexivity.
Defined.

(** The first sweep of a run beats minus infinity and is saved as best; over
    the whole run the best score has only improved. *)
Lemma best_score_witness :
  exists w' evs w'',
    evaluate cfg1 (eval_fuel cfg1) w0 = Ok (Fin 1, w') /\
    calls CSaveBest evs = 0%nat /\
    best_eval_score w' = Fin 1 /\
    trace w' = @SaveModels runtime Best 0 0 :: evs ++ trace w0 /\
    run cfg1 (run_fuel cfg1 w0) w0 = Ok (tt, w'') /\
    score_le (best_eval_score w0) (best_eval_score w'').
Proof.
  assert (Hev : exists w', evaluate cfg1 (eval_fuel cfg1) w0 = Ok (Fin 1, w'))
    by (eexists; apply (returned_world _ w0); vm_compute; reflexivity).
  destruct Hev as (w' & Hev).
  assert (Hrun : exists w'', run cfg1 (run_fuel cfg1 w0) w0 = Ok (tt, w''))
    by (eexists; apply (returned_world _ w0); vm_compute; reflexivity).
  destruct Hrun as (w'' & Hrun).
  destruct (best_score_tracking cfg1) as (Heval & _ & Hscore & _).
  destruct (Heval _ _ _ _ Hev) as (evs & Hsave & Hbest).
  exists w', evs, w''.
  split; [exact Hev | split; [exact Hsave |]].
  simpl in Hbest. destruct Hbest as [Hb Ht].
  split; [exact Hb | split; [exact Ht | split; [exact Hrun |]]].
  exact (Hscore _ _ _ _ Hrun).
Defined.

(** [run] on [cfg1] ([num_steps = 5], training episodes of three steps):
    two whole episodes, ending at step 6. *)
Lemma run_witness :
  well_configured cfg1 /\
  schedule_ok w0 /\
  exists w',
    run cfg1 (run_fuel cfg1 w0) w0 = Ok (tt, w') /\
    steps w' > num_steps cfg1 /\
    episode_chain cfg1 w0 w' /\
    steps w' = 6 /\ episodes w' = 2.
Proof.
  assert (Hcfg : well_configured cfg1) by (repeat split; discriminate).
  assert (Hd : schedule_ok w0) by discriminate.
  split; [exact Hcfg | split; [exact Hd |]].
  destruct (run_returns_past_num_steps cfg1) as (Hret & Htot).
  destruct (Htot w0 Hcfg Hd) as (w' & Hrun).
  exists w'. split; [exact Hrun |].
  destruct (Hret _ _ _ _ Hrun) as [Hgt Hchain].
  split; [exact Hgt | split; [exact Hchain |]].
  assert (Hc : steps (final_world w0 (run cfg1 (run_fuel cfg1 w0) w0)) = 6 /\
               episodes (final_world w0 (run cfg1 (run_fuel cfg1 w0) w0)) = 2)
    by (vm_compute; split; reflexivity).
  rewrite Hrun in Hc. exact Hc.
Defined.

End ToyRuns.

(** ** Further facts about episodes and sweeps *)

Section EpisodeBounds.

Context {X : Runtime}.
Variable cfg : Config X.

(** *** What the loop condition implies *)

Lemma loop_shape_bound (ds : list bool) :
  forall done es,
    loop_shape cfg done es ds ->
    Z.of_nat (length ds) <= Z.max 0 (max_episode_steps cfg + 1 - es).
Proof.
  induction ds as [| d t IH]; intros done es H; simpl in H.
  - simpl. lia.
  - destruct H as (_ & Hle & Ht). apply IH in Ht.
    rewrite length_cons, Nat2Z.inj_succ. lia.
Qed.

Lemma loop_shape_enters (ds : list bool) es :
  loop_shape cfg false es ds -> es <= max_episode_steps cfg -> ds <> [].
Proof.
  destruct ds; [| discriminate].
  simpl. intros [H | H] Hle; [discriminate | lia].
Qed.

Lemma last_nonempty (x : bool) (l : list bool) (a b : bool) :
  last (x :: l) a = last (x :: l) b.
Proof.
  revert x. induction l as [| y l IH]; intro x; [reflexivity |].
  change (last (y :: l) a = last (y :: l) b). apply IH.
Qed.

Lemma loop_shape_exit (ds : list bool) :
  forall done es,
    loop_shape cfg done es ds ->
    last ds done = true \/ es + Z.of_nat (length ds) > max_episode_steps cfg.
Proof.
  induction ds as [| d t IH]; intros done es H; simpl in H.
  - simpl. destruct H; [left; assumption | right; lia].
  - destruct H as (_ & _ & Ht). apply IH in Ht.
    rewrite length_cons, Nat2Z.inj_succ.
    destruct Ht as [Hl | Hg]; [left | right; lia].
    destruct t as [| d' t']; [exact Hl |].
    change (last (d' :: t') done = true).
    rewrite (last_nonempty d' t' done d). exact Hl.
Qed.

Lemma loop_shape_continues (ds : list bool) :
  forall done es,
    loop_shape cfg done es ds -> Forall (fun d => d = false) (removelast ds).
Proof.
  induction ds as [| d t IH]; intros done es H; [constructor |].
  simpl in H. destruct H as (_ & _ & Ht).
  destruct t as [| d' t']; [constructor |].
  change (removelast (d :: d' :: t')) with (d :: removelast (d' :: t')).
  constructor; [| eapply IH; exact Ht].
  simpl in Ht. tauto.
Qed.

(** The flags of the stored transitions, read newest first. *)
Lemma loop_shape_newest_first (l : list (F X * bool)) :
  loop_shape cfg false 0 (rev (map snd l)) ->
  Z.of_nat (length l) <= Z.max 0 (max_episode_steps cfg + 1) /\
  (0 <= max_episode_steps cfg -> (1 <= length l)%nat) /\
  (forall r d rest,
     l = (r, d) :: rest ->
     (d = true \/ Z.of_nat (length l) = max_episode_steps cfg + 1) /\
     Forall (fun x => snd x = false) rest).
Proof.
  intro H.
  pose proof (loop_shape_bound _ _ _ H) as Hb.
  rewrite length_rev, length_map, Z.sub_0_r in Hb.
  split; [exact Hb | split].
  - intro Hmax. pose proof (loop_shape_enters _ _ H Hmax) as Hne.
    destruct l; [simpl in Hne; congruence | simpl; lia].
  - intros r d rest ->. split.
    + pose proof (loop_shape_exit _ _ _ H) as He.
      rewrite length_rev, length_map in He. simpl map in He. simpl rev in He.
      rewrite last_last in He. destruct He as [He | He]; [left; exact He |].
      right. simpl length in *. lia.
    + apply loop_shape_continues in H. simpl map in H. simpl rev in H.
      rewrite removelast_last in H.
      apply Forall_rev in H. rewrite rev_involutive in H.
      apply Forall_map in H. exact H.
Qed.

(** X1. A training episode takes at most [max_episode_steps + 1] steps (the
    loop test is [<=]), at least one when [max_episode_steps >= 0]; it
    stops short of that only on a transition stored with [done] true, and
    every transition stored before the last has [done] false. *)
Theorem train_episode_length fuel (w : World X) w' :
  train_episode cfg fuel w = Ok (tt, w') ->
  exists evs episode_return,
    trace w' =
      TrainReturnAppend episode_return
        :: evs ++ (if use_morl cfg then MorlGetStates else EnvReset) :: trace w /\
    steps w' - steps w = Z.of_nat (length (stored evs)) /\
    Z.of_nat (length (stored evs)) <= Z.max 0 (max_episode_steps cfg + 1) /\
    (0 <= max_episode_steps cfg -> (1 <= length (stored evs))%nat) /\
    (forall r d rest,
       stored evs = (r, d) :: rest ->
       (d = true \/ Z.of_nat (length (stored evs)) = max_episode_steps cfg + 1) /\
       Forall (fun x => snd x = false) rest).
Proof.
  intro H. apply train_episode_effect in H.
  destruct H as (evs & r & Ht & _ & _ & _ & _ & Hs & _ & _ & _ & _ & Hshape & _).
  exists evs, r. split; [exact Ht | split; [lia |]].
  apply loop_shape_newest_first. exact Hshape.
Qed.

End EpisodeBounds.

Section SweepBounds.

Context {X : Runtime}.
Variable cfg : Config X.

Lemma eval_action_quiet (state : Obs X) (w : World X) a w' :
  eval_action cfg state w = Ok (a, w') ->
  trace w' = trace w /\ online_net w' = online_net w.
Proof.
  unfold eval_action, is_random. intro H.
  unbind H as r w1 Hr. unbind Hr as s0 w2 Hs. unret Hs.
  assert (Hq : trace w1 = trace w /\ online_net w1 = online_net w).
  { destruct (steps w <? start_steps cfg); [unret Hr; split; reflexivity |].
    unbind Hr as u w3 Hu. unret Hr. unfold np_random_rand in Hu.
    destruct (rand X (np_random w)) as [u0 g]. inversion Hu; subst.
    split; reflexivity. }
  destruct Hq as [Ht Ho]. rewrite <- Ht, <- Ho.
  destruct r.
  - unfold explore in H. destruct (use_morl cfg).
    + destruct (sample_actions X (morl_env_spec w1)) as [a0 s0].
      inversion H; subst. split; reflexivity.
    + destruct (action_space_sample X (env w1)) as [a0 e0].
      inversion H; subst. split; reflexivity.
  - unfold exploit in H. unret H. split; reflexivity.
Qed.

Lemma test_env_step_shape (action : Z) (w : World X) r w' :
  test_env_step action w = Ok (r, w') ->
  trace w' = TestEnvStep action :: trace w /\ online_net w' = online_net w.
Proof.
  unfold test_env_step. destruct (env_step X (test_env w) action) as [r0 e].
  intro H. inversion H; subst. split; reflexivity.
Qed.

Lemma test_env_reset_shape (w : World X) s w' :
  test_env_reset w = Ok (s, w') ->
  trace w' = TestEnvReset :: trace w /\ online_net w' = online_net w.
Proof.
  unfold test_env_reset. destruct (env_reset X (test_env w)) as [s0 e].
  intro H. inversion H; subst. split; reflexivity.
Qed.

(** One evaluation episode: a test-environment step per counted step, no
    reset, the online network untouched, and at most
    [max_episode_steps + 1] steps. *)
Lemma eval_episode_loop_calls fuel :
  forall (state : Obs X) done es er ns w k r n1 w',
    eval_episode_loop cfg fuel state done es er ns w = Ok ((k, r, n1), w') ->
    exists evs,
      grew w w' evs /\
      only sweep_call evs /\
      Z.of_nat (calls CTestEnvStep evs) = k - es /\
      calls CTestEnvReset evs = 0%nat /\
      online_net w' = online_net w /\
      k <= Z.max es (max_episode_steps cfg + 1).
Proof.
  induction fuel as [| fuel IH]; intros state done es er ns w k r n1 w' H;
    rewrite eval_episode_loop_unfold in H;
    destruct (negb done && (es <=? max_episode_steps cfg)) eqn:Hc;
    try discriminate;
    try (unret H; exists []; unfold grew; simpl;
         repeat split; try constructor; lia).
  apply andb_true_iff in Hc. destruct Hc as [_ Hc]. apply Z.leb_le in Hc.
  unbind H as a w1 Ha. unbind H as [[next_state reward] done'] w2 Hs.
  apply eval_action_quiet in Ha. destruct Ha as [Ta Oa].
  apply test_env_step_shape in Hs. destruct Hs as [Ts Os].
  apply IH in H. destruct H as (evs & Hg & Hev & Hn & Hr & Ho & Hk).
  exists (evs ++ [TestEnvStep a]).
  unfold grew in *. rewrite !calls_app.
  split; [rewrite Hg, Ts, Ta, <- app_assoc; reflexivity |].
  split; [apply only_app; [exact Hev | repeat constructor] |].
  split; [unfold calls at 2; simpl; lia |].
  split; [rewrite Hr; reflexivity |].
  split; [congruence | lia].
Qed.

(** The loop of the sweep: a reset per episode and a step per counted step;
    with [max_episode_steps >= 0] the step count overshoots the budget by at
    most one episode. *)
Lemma evaluate_loop_calls fuel :
  forall ne ns (tr : F X) w ne' ns' tr' w',
    evaluate_loop cfg fuel ne ns tr w = Ok ((ne', ns', tr'), w') ->
    exists evs,
      grew w w' evs /\
      only sweep_call evs /\
      Z.of_nat (calls CTestEnvReset evs) = ne' - ne /\
      Z.of_nat (calls CTestEnvStep evs) = ns' - ns /\
      online_net w' = online_net w /\
      num_eval_steps cfg < ns' /\
      1 <= ne' - ne /\
      (0 <= max_episode_steps cfg ->
       ns' <= Z.max ns (num_eval_steps cfg) + max_episode_steps cfg + 1 /\
       ne' - ne <= Z.max 1 (num_eval_steps cfg + 1 - ns)).
Proof.
  induction fuel as [| fuel IH]; intros ne ns tr w ne' ns' tr' w' H;
    [discriminate |].
  rewrite evaluate_loop_unfold in H.
  unbind H as s w1 Hr. unbind H as [[k r] ns1] w2 Hi.
  unbind H as d w3 Hd. unret Hd.
  pose proof (eval_episode_loop_steps cfg _ _ _ _ _ _ _ _ _ _ _ Hi) as (Hk & _ & Hpos).
  specialize (Hpos eq_refl).
  apply test_env_reset_shape in Hr. destruct Hr as [Tr Or].
  apply eval_episode_loop_calls in Hi.
  destruct Hi as (e1 & G1 & V1 & S1 & R1 & O1 & K1).
  assert (G2 : grew w w2 (e1 ++ [TestEnvReset])).
  { unfold grew in *. rewrite G1, Tr, <- app_assoc. reflexivity. }
  assert (V2 : only sweep_call (e1 ++ [TestEnvReset (X := X)])).
  { apply only_app; [exact V1 | repeat constructor]. }
  assert (C2 : Z.of_nat (calls CTestEnvReset (e1 ++ [TestEnvReset (X := X)])) = 1).
  { rewrite calls_app, R1. reflexivity. }
  assert (D2 : Z.of_nat (calls CTestEnvStep (e1 ++ [TestEnvReset (X := X)])) = ns1 - ns).
  { rewrite calls_app. unfold calls at 2. simpl. lia. }
  destruct (ns1 >? num_eval_steps cfg) eqn:Hgt.
  - unret H. apply Z.gtb_lt in Hgt.
    exists (e1 ++ [TestEnvReset]).
    split; [exact G2 | split; [exact V2 | split; [lia | split; [exact D2 |]]]].
    split; [congruence | split; [lia | split; [lia |]]].
    intro Hmax. specialize (Hpos Hmax). lia.
  - rewrite Z.gtb_ltb in Hgt. apply Z.ltb_ge in Hgt.
    apply IH in H.
    destruct H as (e2 & G3 & V3 & C3 & D3 & O3 & B1 & B2 & B3).
    exists (e2 ++ e1 ++ [TestEnvReset]).
    split; [unfold grew in *; rewrite G3, G2, !app_assoc; reflexivity |].
    split; [apply only_app; assumption |].
    rewrite (calls_app CTestEnvReset), (calls_app CTestEnvStep), !Nat2Z.inj_add.
    split; [lia | split; [lia | split; [congruence | split; [lia | split; [lia |]]]]].
    intro Hmax. specialize (Hpos Hmax). specialize (B3 Hmax). lia.
Qed.

(** X2. With [max_episode_steps >= 0], an evaluation sweep resets the test
    environment once per episode and steps it once per counted step; it
    takes more than [num_eval_steps] steps and overshoots that budget by at
    most one episode of [max_episode_steps + 1] steps, in at most
    [num_eval_steps + 1] episodes (one when the budget is negative). *)
Theorem evaluate_cost_bounds fuel (w : World X) mean w' :
  0 <= max_episode_steps cfg ->
  evaluate cfg fuel w = Ok (mean, w') ->
  exists evs,
    grew w w' evs /\
    num_eval_steps cfg < Z.of_nat (calls CTestEnvStep evs) /\
    Z.of_nat (calls CTestEnvStep evs)
      <= Z.max 0 (num_eval_steps cfg) + max_episode_steps cfg + 1 /\
    1 <= Z.of_nat (calls CTestEnvReset evs) /\
    Z.of_nat (calls CTestEnvReset evs) <= Z.max 1 (num_eval_steps cfg + 1).
Proof.
  intros Hmax H. apply evaluate_spec in H.
  destruct H as (ne & ns & tr & w1 & Hl & _ & _ & ->).
  apply evaluate_loop_calls in Hl.
  destruct Hl as (evs & G & _ & C & D & _ & B1 & B2 & B3).
  specialize (B3 Hmax).
  unfold grew in G. simpl in G.
  unfold record_best.
  destruct (f_ltb X (best_eval_score w1) mean).
  - exists (SaveModels Best (params (online_net w1)) (params (target_net w1)) :: evs).
    split; [unfold grew; simpl; rewrite G; reflexivity |].
    rewrite !calls_cons. simpl. lia.
  - exists evs. split; [exact G | lia].
Qed.


End SweepBounds.

(** ** Configurations on which the agent hangs or raises *)

Section EdgeConfigurations.

Context {X : Runtime}.
Variable cfg : Config X.

Lemma loop_not_entered es :
  max_episode_steps cfg < es ->
  negb false && (es <=? max_episode_steps cfg) = false.
Proof. intro H. simpl. apply Z.leb_gt. exact H. Qed.

Lemma evaluate_loop_stuck fuel :
  max_episode_steps cfg < 0 ->
  forall ne ns (tr : F X) w,
    0 <= ne -> ns <= num_eval_steps cfg ->
    evaluate_loop cfg fuel ne ns tr w = OutOfFuel.
Proof.
  intro Hmax. induction fuel as [| fuel IH]; intros ne ns tr w Hne Hns;
    [reflexivity |].
  rewrite evaluate_loop_unfold.
  destruct (test_env_reset_total w) as (s & w1 & Hr).
  rewrite (bind_eq _ _ _ _ _ Hr).
  rewrite eval_episode_loop_unfold, (loop_not_entered 0 Hmax).
  unfold bind at 1, ret. unfold bind at 1, lift.
  rewrite py_truediv_nonzero by lia.
  replace (ns >? num_eval_steps cfg) with false
    by (symmetry; rewrite Z.gtb_ltb; apply Z.ltb_ge; exact Hns).
  apply IH; lia.
Qed.

(** X3. With a negative [max_episode_steps] and a budget [num_eval_steps >= 0]
    an evaluation sweep never returns: its episodes take no step, so the
    step count never passes the budget. *)
Theorem evaluate_never_returns :
  max_episode_steps cfg < 0 ->
  0 <= num_eval_steps cfg ->
  forall fuel (w : World X), evaluate cfg fuel w = OutOfFuel.
Proof.
  intros Hmax Hbudget fuel w. unfold evaluate.
  erewrite bind_eq by reflexivity.
  unfold bind. rewrite evaluate_loop_stuck by (assumption || lia). reflexivity.
Qed.

Lemma train_episode_skips fuel (w : World X) :
  max_episode_steps cfg < 0 ->
  exists w1, train_episode cfg fuel w = Ok (tt, w1) /\ steps w1 = steps w.
Proof.
  intro Hmax. unfold train_episode.
  erewrite bind_eq by reflexivity.
  erewrite bind_eq by reflexivity.
  erewrite bind_eq by reflexivity.
  match goal with
  | |- exists w1, bind (initial_state _) _ ?w0 = _ /\ _ =>
      assert (Hi : exists s w2, initial_state cfg w0 = Ok (s, w2) /\
                                steps w2 = steps w)
  end.
  { unfold initial_state, morl_get_states. destruct (use_morl cfg); simpl.
    - destruct (get_states_ X (morl_env w)). eauto.
    - destruct (env_reset X (env w)). eauto. }
  destruct Hi as (s & w2 & Hi & Hs). rewrite (bind_eq _ _ _ _ _ Hi).
  rewrite train_loop_unfold, (loop_not_entered 0 Hmax).
  unfold bind, ret, modify. eexists. split; [reflexivity | exact Hs].
Qed.

(** X4. With a negative [max_episode_steps], [run()] never returns from a
    state with [steps <= num_steps]: every episode ends without a step, so
    the step counter stays where it is. *)
Theorem run_never_returns :
  max_episode_steps cfg < 0 ->
  forall fuel (w : World X),
    steps w <= num_steps cfg -> run cfg fuel w = OutOfFuel.
Proof.
  intro Hmax. induction fuel as [| fuel IH]; intros w Hs; [reflexivity |].
  rewrite run_unfold.
  destruct (train_episode_skips fuel w Hmax) as (w1 & He & Hs1).
  rewrite (bind_eq _ _ _ _ _ He). unfold bind, get.
  replace (steps w1 >? num_steps cfg) with false
    by (symmetry; rewrite Z.gtb_ltb; apply Z.ltb_ge; lia).
  apply IH. lia.
Qed.


(** *** A zero interval *)

Lemma is_random_train_outcome (w : World X) :
  (exists b w', is_random cfg false w = Ok (b, w')) \/
  is_random cfg false w = Raise ZeroDivisionError.
Proof.
  unfold is_random, bind, get, ret.
  destruct (steps w <? start_steps cfg); [left; eauto |].
  destruct (noisy_net cfg); [left; eauto |].
  unfold np_random_rand. destruct (rand X (np_random w)) as [u0 g].
  unfold lift, anneaer_get, py_truediv. simpl.
  destruct (decay_steps (epsilon_train w) =? 0); [right; reflexivity | left; eauto].
Qed.

Lemma train_action_outcome (state : Obs X) (w : World X) :
  (exists a w', train_action cfg state w = Ok (a, w')) \/
  train_action cfg state w = Raise ZeroDivisionError.
Proof.
  unfold train_action.
  destruct (is_random_train_outcome w) as [(b & w1 & Hr) | Hr].
  - rewrite (bind_eq _ _ _ _ _ Hr). left. destruct b.
    + apply explore_total.
    + destruct (use_morl cfg).
      * unfold bind, morl_get_states, exploit, get.
        destruct (get_states_ X (morl_env w1)). eauto.
      * unfold exploit, get. eauto.
  - right. unfold bind. rewrite Hr. reflexivity.
Qed.

Lemma is_update_raises (w : World X) :
  update_interval cfg = 0 -> is_update cfg w = Raise ZeroDivisionError.
Proof.
  intro H. unfold is_update, bind, get, lift, py_mod. rewrite H. reflexivity.
Qed.

Lemma train_step_interval_raises fuel (w : World X) :
  target_update_interval cfg = 0 \/ update_interval cfg = 0 \/
  eval_interval cfg = 0 ->
  train_step_interval cfg fuel w = Raise ZeroDivisionError.
Proof.
  intro H. unfold train_step_interval.
  erewrite bind_eq by reflexivity.
  erewrite bind_eq by reflexivity.
  destruct (Z.eq_dec (target_update_interval cfg) 0) as [Ht | Ht].
  { unfold bind, lift, py_mod. rewrite Ht. reflexivity. }
  erewrite bind_eq
    by (unfold lift; rewrite (py_mod_nonzero _ _ Ht); reflexivity).
  match goal with
  | |- bind (if ?c then _ else _) _ _ = _ =>
      destruct c; unfold update_target; (erewrite bind_eq by reflexivity)
  end.
  all: destruct (Z.eq_dec (update_interval cfg) 0) as [Hu | Hu];
    [unfold bind at 1; rewrite (is_update_raises _ Hu); reflexivity |].
  all: rewrite (bind_eq _ _ _ _ _ (is_update_value cfg _ Hu)).
  all: match goal with
       | |- bind (if ?c then _ else _) _ _ = _ =>
           destruct c; (erewrite bind_eq by reflexivity)
       end.
  all: erewrite bind_eq by reflexivity.
  all: destruct H as [H | [H | H]]; try contradiction.
  all: unfold bind, lift, py_mod; rewrite H; reflexivity.
Qed.

(** X10. With a zero [target_update_interval], [update_interval] or
    [eval_interval] every call of [train_step_interval] raises
    [ZeroDivisionError]; so does every training step, and so does [run()]
    in the first step of its first episode when [max_episode_steps >= 0].
    (Choosing the action can only fail with the same error, in the epsilon
    schedule.) *)
Theorem zero_interval_raises :
  target_update_interval cfg = 0 \/ update_interval cfg = 0 \/
  eval_interval cfg = 0 ->
  (forall fuel (w : World X),
     train_step_interval cfg fuel w = Raise ZeroDivisionError) /\
  (forall fuel (state : Obs X) (w : World X),
     train_iteration cfg fuel state w = Raise ZeroDivisionError) /\
  (0 <= max_episode_steps cfg ->
   forall fuel (w : World X),
     run cfg (S (S fuel)) w = Raise ZeroDivisionError).
Proof.
  intro H.
  assert (Hit : forall fuel (state : Obs X) (w : World X),
            train_iteration cfg fuel state w = Raise ZeroDivisionError).
  { intros fuel state w. unfold train_iteration.
    erewrite bind_eq by reflexivity.
    match goal with
    | |- bind (train_action _ _) _ ?w0 = _ => set (wa := w0); clearbody wa
    end.
    destruct (train_action_outcome state wa) as [(a & w1 & Ha) | Ha].
    - rewrite (bind_eq _ _ _ _ _ Ha).
      destruct (step_and_store_total cfg state a w1) as (r & w2 & Hs).
      rewrite (bind_eq _ _ _ _ _ Hs). destruct r as [[ns rw] d].
      erewrite bind_eq by reflexivity.
      unfold bind at 1. rewrite (train_step_interval_raises _ _ H). reflexivity.
    - unfold bind at 1. rewrite Ha. reflexivity. }
  split; [intros fuel w; apply train_step_interval_raises; exact H |].
  split; [exact Hit |].
  intros Hmax fuel w. rewrite run_unfold.
  unfold bind at 1. unfold train_episode.
  erewrite bind_eq by reflexivity.
  erewrite bind_eq by reflexivity.
  erewrite bind_eq by reflexivity.
  match goal with
  | |- context [bind (initial_state _) _ ?w0] =>
      assert (Hi : exists s w2, initial_state cfg w0 = Ok (s, w2))
  end.
  { unfold initial_state, morl_get_states. destruct (use_morl cfg); simpl.
    - destruct (get_states_ X (morl_env w)). eauto.
    - destruct (env_reset X (env w)). eauto. }
  destruct Hi as (s & w2 & Hi). rewrite (bind_eq _ _ _ _ _ Hi).
  rewrite train_loop_unfold.
  replace (negb false && (0 <=? max_episode_steps cfg)) with true
    by (symmetry; simpl; apply Z.leb_le; exact Hmax).
  unfold bind. rewrite Hit. reflexivity.
Qed.

(** *** The constructor *)


End EdgeConfigurations.
(** ** The order of the calls and the books of a run *)

Section RunFacts.

Context {X : Runtime}.
Variable cfg : Config X.

(** *** The trace of a tick and of a training step *)

Lemma tick_before_eval_trace (w : World X) :
  trace (tick_before_eval cfg w) = tick_events cfg w ++ trace w.
Proof.
  unfold tick_before_eval, tick_events.
  destruct (update_due cfg w); destruct (sync_due cfg w); reflexivity.
Qed.

Lemma tick_events_steps (a b : World X) :
  steps a = steps b -> tick_events cfg a = tick_events cfg b.
Proof.
  intro H. unfold tick_events, update_due, sync_due. rewrite H. reflexivity.
Qed.

Lemma tick_events_only (w : World X) : only tick_call (tick_events cfg w).
Proof.
  unfold tick_events.
  destruct (update_due cfg w); destruct (sync_due cfg w); repeat constructor.
Qed.

Lemma train_step_interval_trace fuel (w : World X) u w' :
  train_step_interval cfg fuel w = Ok (u, w') ->
  steps w' = steps w /\
  exists sweep,
    trace w' = sweep ++ tick_events cfg w ++ trace w /\
    if eval_due cfg w then
      exists evs,
        sweep = SaveModels Final (params (online_net w'))
                  (params (target_net w')) :: evs /\
        only eval_call evs /\
        training (online_net w') = true
    else sweep = [].
Proof.
  intro H. apply train_step_interval_spec in H. destruct H as (_ & _ & _ & H).
  pose proof (tick_before_eval_trace w) as Ht.
  destruct (tick_before_eval_frame cfg w) as (F1 & _).
  destruct (eval_due cfg w).
  - destruct H as (mean & w4 & Hev & ->).
    apply evaluate_effect in Hev. destruct Hev as (Hf & (evs & Hg & Ho) & _).
    unfold eval_frame in Hf. destruct Hf as (_ & _ & _ & _ & _ & Hs & _).
    split; [simpl; congruence |].
    exists (SaveModels Final (params (online_net w4)) (params (target_net w4))
            :: evs).
    split; [simpl; unfold grew in Hg; rewrite Hg, Ht; reflexivity |].
    exists evs. split; [reflexivity | split; [exact Ho | reflexivity]].
  - subst w'. split; [exact F1 |]. exists []. split; [exact Ht | reflexivity].
Qed.

Lemma train_action_trace (state : Obs X) (w : World X) a w' :
  train_action cfg state w = Ok (a, w') ->
  steps w' = steps w /\
  exists greedy,
    trace w' = greedy ++ trace w /\
    (greedy = [] \/ use_morl cfg = true /\ greedy = [MorlGetStates]).
Proof.
  unfold train_action. intro H. unbind H as r w1 Hr.
  apply is_random_train_frame in Hr. destruct Hr as [(Hf & _) Ht].
  destruct r.
  - apply explore_train_frame in H. destruct H as [(Hf' & _) Ht'].
    split; [congruence |]. exists []. split; [simpl; congruence | left; reflexivity].
  - destruct (use_morl cfg) eqn:Hmorl.
    + unbind H as s w2 Hs. apply morl_get_states_effect in Hs.
      destruct Hs as [(Hf' & _) Ht']. unfold exploit in H. unret H.
      split; [congruence |]. exists [MorlGetStates].
      split; [simpl; congruence | right; split; reflexivity].
    + unfold exploit in H. unret H.
      split; [congruence |]. exists []. split; [simpl; congruence | left; reflexivity].
Qed.

(** The trace of one iteration of the training loop, newest call first: the
    sweep and the checkpoint when a sweep is due, the tick, the memory write,
    the environment step, and the call made while the action was chosen. *)
Lemma train_iteration_trace fuel (state : Obs X) (w : World X)
    next_state reward done w' :
  train_iteration cfg fuel state w = Ok ((next_state, reward, done), w') ->
  steps w' = steps w + 1 /\
  exists sweep e_store e_step greedy action,
    trace w' =
      sweep ++ tick_events cfg w' ++ e_store :: e_step :: greedy ++ trace w /\
    (greedy = [] \/ use_morl cfg = true /\ greedy = [MorlGetStates]) /\
    stored [e_store; e_step] = [(reward, done)] /\
    call_of e_store = store_call cfg /\
    call_of e_step = step_call cfg /\
    (use_morl cfg = false ->
       e_step = EnvStep action /\
       e_store = MemoryAppend state action reward next_state done) /\
    (use_morl cfg = true ->
       exists exp_,
         e_step = MorlStep action /\ e_store = MorlMemoryAdd exp_ /\
         (next_state, reward, done)
           = (next_states X exp_, rewards X exp_, dones X exp_)) /\
    if eval_due cfg w' then
      exists evs,
        sweep = SaveModels Final (params (online_net w'))
                  (params (target_net w')) :: evs /\
        only eval_call evs /\
        training (online_net w') = true
    else sweep = [].
Proof.
  unfold train_iteration. intro H.
  unbind H as u0 w0 H0. unfold resample_noise in H0. unret H0.
  unbind H as action w1 Ha.
  apply train_action_trace in Ha. destruct Ha as (HsA & A & HgA & HA).
  unbind H as [[ns r] d] w2 Hs.
  apply step_and_store_effect in Hs.
  destruct Hs as (e_store & e_step & HgS & Hst & Hsp & HsS & HfS & Hplain & Hmorl).
  unbind H as u3 w3 H3. unret H3.
  unbind H as u4 w4 Ht. unret H.
  apply train_step_interval_trace in Ht.
  destruct Ht as (HsT & E & HgT & HE).
  destruct HfS as (FS1 & _).
  simpl in HsA, HgA, HsT, HgT.
  assert (Hsteps : steps w4 = steps w + 1) by congruence.
  split; [exact Hsteps |].
  exists E, e_store, e_step, A, action.
  split; [| split; [exact HA | split; [exact HsS | split; [exact Hst |
    split; [exact Hsp | split; [| split]]]]]].
  - rewrite HgT, HgS, HgA.
    rewrite (tick_events_steps _ w4) by (simpl; congruence). reflexivity.
  - intro Hm. destruct (Hplain Hm) as (E1 & E2 & _). split; assumption.
  - intro Hm. destruct (Hmorl Hm) as (exp_ & E1 & E2 & E3 & _).
    exists exp_. split; [assumption | split; assumption].
  - unfold eval_due in *. simpl in HE. rewrite Hsteps.
    replace (steps w2 + 1) with (steps w + 1) in HE by congruence.
    exact HE.
Qed.



(** *** Learning waits for [start_steps] stored transitions *)

Lemma only_not (p : call -> bool) (c : call) (evs : list (event X)) :
  only p evs -> p c = false -> Forall (fun e => call_of e <> c) evs.
Proof.
  intros H Hc. eapply Forall_impl; [| exact H].
  intros e He Heq. simpl in He. rewrite Heq in He. congruence.
Qed.

Lemma gated_from_quiet base (a b : list (event X)) :
  Forall (fun e => call_of e <> CLearn) a ->
  gated_from cfg base b -> gated_from cfg base (a ++ b).
Proof.
  induction 1 as [| e a He _ IH]; intro Hb; [exact Hb |].
  simpl. split; [intro Heq; contradiction | apply IH; exact Hb].
Qed.

Lemma gated_from_tick base (w : World X) (b : list (event X)) :
  (update_due cfg w = true ->
   start_steps cfg <= base + Z.of_nat (length (stored b))) ->
  gated_from cfg base b -> gated_from cfg base (tick_events cfg w ++ b).
Proof.
  intros Hdue Hb. unfold tick_events.
  destruct (update_due cfg w); destruct (sync_due cfg w); simpl;
    repeat split; try discriminate; try exact Hb; intros _; apply Hdue;
    reflexivity.
Qed.

Lemma gated_from_split base (newer : list (event X)) :
  forall e older,
    gated_from cfg base (newer ++ e :: older) ->
    call_of e = CLearn ->
    start_steps cfg <= base + Z.of_nat (length (stored older)).
Proof.
  induction newer as [| x newer IH]; intros e older H He; simpl in H.
  - destruct H as [H _]. apply H. exact He.
  - destruct H as [_ H]. eapply IH; eassumption.
Qed.

Lemma stored_quiet (p : call -> bool) (evs : list (event X)) :
  only p evs -> p CMemoryAppend = false -> p CMorlMemoryAdd = false ->
  stored evs = [].
Proof.
  intros H H1 H2. induction H as [| e evs He _ IH]; [reflexivity |].
  destruct e; simpl in *; try exact IH; congruence.
Qed.

Lemma sweep_is_quiet (w' : World X) (sweep : list (event X)) (due : bool) :
  (if due then
     exists evs,
       sweep = SaveModels Final (params (online_net w'))
                 (params (target_net w')) :: evs /\
       only eval_call evs /\
       training (online_net w') = true
   else sweep = []) ->
  stored sweep = [] /\ Forall (fun e => call_of e <> CLearn) sweep.
Proof.
  destruct due.
  - intros (evs & -> & Ho & _). split.
    + simpl. apply (stored_quiet eval_call); [exact Ho | reflexivity | reflexivity].
    + constructor; [discriminate |].
      apply (only_not eval_call); [exact Ho | reflexivity].
  - intros ->. split; constructor.
Qed.

Lemma greedy_is_quiet (greedy : list (event X)) :
  greedy = [] \/ use_morl cfg = true /\ greedy = [MorlGetStates] ->
  stored greedy = [] /\ Forall (fun e => call_of e <> CLearn) greedy.
Proof.
  intros [-> | [_ ->]]; split; repeat constructor; discriminate.
Qed.

Lemma train_iteration_gated fuel (state : Obs X) (w : World X) r w' :
  train_iteration cfg fuel state w = Ok (r, w') ->
  steps_are_stored w -> gated_from cfg 0 (trace w) ->
  steps_are_stored w' /\ gated_from cfg 0 (trace w').
Proof.
  destruct r as [[ns rw] d]. intros H Hst Hg.
  apply train_iteration_trace in H.
  destruct H as (Hs & E & e_store & e_step & A & action & Ht & HA & Hstored
                 & Hc1 & Hc2 & _ & _ & HE).
  apply sweep_is_quiet in HE. destruct HE as [HE1 HE2].
  apply greedy_is_quiet in HA. destruct HA as [HA1 HA2].
  assert (Hrest : stored (e_store :: e_step :: A ++ trace w)
                  = (rw, d) :: stored (trace w)).
  { change (e_store :: e_step :: A ++ trace w)
      with ([e_store; e_step] ++ A ++ trace w).
    rewrite !stored_app, Hstored, HA1. reflexivity. }
  assert (Hlen : steps w' = Z.of_nat (length (stored (trace w'))) ).
  { rewrite Ht, !stored_app, HE1, Hrest.
    rewrite (stored_quiet tick_call _ (tick_events_only w')) by reflexivity.
    simpl length. unfold steps_are_stored in Hst. lia. }
  split; [exact Hlen |].
  rewrite Ht. apply gated_from_quiet; [exact HE2 |].
  apply gated_from_tick.
  - rewrite Hrest. simpl length. unfold update_due. intro Hdue.
    apply andb_true_iff in Hdue. destruct Hdue as [_ Hdue].
    apply Z.leb_le in Hdue. unfold steps_are_stored in Hst. lia.
  - change (e_store :: e_step :: A ++ trace w)
      with ([e_store; e_step] ++ A ++ trace w).
    apply gated_from_quiet.
    + unfold store_call, step_call in Hc1, Hc2.
      repeat constructor; [rewrite Hc1 | rewrite Hc2];
        destruct (use_morl cfg); discriminate.
    + apply gated_from_quiet; [exact HA2 | exact Hg].
Qed.

Lemma train_loop_gated fuel :
  forall (state : Obs X) done es er w r w',
    train_loop cfg fuel state done es er w = Ok (r, w') ->
    steps_are_stored w -> gated_from cfg 0 (trace w) ->
    steps_are_stored w' /\ gated_from cfg 0 (trace w').
Proof.
  induction fuel as [| fuel IH]; intros state done es er w r w' H Hs Hg;
    rewrite train_loop_unfold in H;
    destruct (negb done && (es <=? max_episode_steps cfg));
    try discriminate.
  - unret H. split; assumption.
  - unbind H as [[s1 r1] d1] w1 Hi.
    destruct (train_iteration_gated _ _ _ _ _ Hi Hs Hg) as [Hs1 Hg1].
    eapply IH; eassumption.
  - unret H. split; assumption.
Qed.

Lemma train_episode_gated fuel (w : World X) u w' :
  train_episode cfg fuel w = Ok (u, w') ->
  steps_are_stored w -> gated_from cfg 0 (trace w) ->
  steps_are_stored w' /\ gated_from cfg 0 (trace w').
Proof.
  unfold train_episode, online_net_mode, target_net_mode. intros H Hst Hg.
  unbind H as u0 w0 H0. unret H0.
  unbind H as u1 w1 H1. unret H1.
  unbind H as u2 w2 H2. unret H2.
  unbind H as state w3 Hs.
  apply initial_state_effect in Hs. destruct Hs as [Ht0 (Hf & _)].
  unbind H as [es er] w4 Hl. unret H.
  simpl in Ht0, Hf.
  assert (Hs3 : steps_are_stored w3).
  { unfold steps_are_stored in *. rewrite Ht0, Hf.
    destruct (use_morl cfg); exact Hst. }
  assert (Hg3 : gated_from cfg 0 (trace w3)).
  { rewrite Ht0. simpl. split; [| exact Hg].
    destruct (use_morl cfg); discriminate. }
  destruct (train_loop_gated _ _ _ _ _ _ _ _ Hl Hs3 Hg3) as [Hs4 Hg4].
  split.
  - unfold steps_are_stored in *. simpl. exact Hs4.
  - simpl. split; [discriminate | exact Hg4].
Qed.

(** X7. Over a whole [run()] the step counter keeps counting the stored
    transitions, and every [learn()] call comes after at least
    [start_steps] of them have been stored. *)
Theorem learning_waits_for_start_steps fuel (w : World X) u w' :
  steps_are_stored w ->
  gated_from cfg 0 (trace w) ->
  run cfg fuel w = Ok (u, w') ->
  steps_are_stored w' /\
  forall newer older,
    trace w' = newer ++ Learn :: older ->
    start_steps cfg <= Z.of_nat (length (stored older)).
Proof.
  intros Hs Hg H.
  assert (Hinv : steps_are_stored w' /\ gated_from cfg 0 (trace w')).
  { revert w u w' Hs Hg H.
    induction fuel as [| fuel IH]; intros w u w' Hs Hg H; [discriminate |].
    rewrite run_unfold in H.
    unbind H as u1 w1 He. unbind H as s w2 Hs2. unret Hs2.
    destruct (train_episode_gated _ _ _ _ He Hs Hg) as [Hs1 Hg1].
    destruct (steps w1 >? num_steps cfg).
    - unret H. split; assumption.
    - eapply IH; eassumption. }
  destruct Hinv as [Hs' Hg']. split; [exact Hs' |].
  intros newer older Ht. rewrite Ht in Hg'.
  apply (gated_from_split 0 newer Learn older Hg'). reflexivity.
Qed.


(** *** The books of a run *)

Lemma iteration_call_run (c : call) :
  iteration_call cfg c = true -> run_call cfg c = true.
Proof. destruct c; simpl; intro H; try discriminate; try exact H; reflexivity. Qed.

Lemma ledger_trans (w1 w2 w3 : World X) (e1 e2 : list (event X)) :
  ledger cfg w1 w2 e1 -> ledger cfg w2 w3 e2 -> ledger cfg w1 w3 (e2 ++ e1).
Proof.
  unfold ledger, grew.
  intros (G1 & O1 & S1 & A1 & B1 & C1 & P1 & L1 & R1)
         (G2 & O2 & S2 & A2 & B2 & C2 & P2 & L2 & R2).
  rewrite stored_app, length_app, !calls_app.
  split; [| split; [| split; [| split; [| split; [| split; [| split; [| split]]]]]]].
  - rewrite G2, G1. apply app_assoc.
  - apply only_app; assumption.
  - lia.
  - lia.
  - lia.
  - lia.
  - lia.
  - lia.
  - intro Hm. rewrite (R1 Hm), (R2 Hm). reflexivity.
Qed.

Lemma train_episode_ledger fuel (w : World X) u w' :
  train_episode cfg fuel w = Ok (u, w') ->
  exists evs,
    ledger cfg w w' evs /\ calls CTrainReturnAppend evs = 1%nat /\
    Z.of_nat (length (stored evs)) <= Z.max 0 (max_episode_steps cfg + 1).
Proof.
  intro H. apply train_episode_effect in H.
  destruct H as (evs & r & Ht & Ho & Ce & Cs & Cm & Hs & _ & He & _ & _ & Hshape & _).
  apply loop_shape_newest_first in Hshape. destruct Hshape as (Hbound & _).
  pose proof (only_calls _ CTrainReturnAppend _ Ho eq_refl) as Z1.
  pose proof (only_calls _ CEnvReset _ Ho eq_refl) as Z2.
  exists (TrainReturnAppend r
          :: evs ++ [if use_morl cfg then MorlGetStates else EnvReset]).
  assert (Hst : stored (TrainReturnAppend r
                  :: evs ++ [if use_morl cfg then MorlGetStates else EnvReset])
                = stored evs).
  { simpl. rewrite stored_app. destruct (use_morl cfg); simpl; apply app_nil_r. }
  unfold ledger, grew. rewrite Hst.
  rewrite !calls_cons, !calls_app, Z1, Z2, Ce, Cs, Cm.
  unfold step_call, store_call, first_call in *.
  split; [| split; [| exact Hbound]].
  - split; [simpl; rewrite Ht, <- app_assoc; reflexivity |].
    split.
    { constructor; [reflexivity |]. apply only_app.
      - eapply only_weaken; [apply iteration_call_run | exact Ho].
      - constructor; [| constructor].
        destruct (use_morl cfg) eqn:Hm; simpl; rewrite Hm; reflexivity. }
    destruct (use_morl cfg); unfold calls; simpl;
      repeat split; try lia; try discriminate.
  - destruct (use_morl cfg); reflexivity.
Qed.

(** X5. The books of a whole [run()] balance: the step counter advanced by
    the number of transitions stored, which is also the number of epsilon
    steps, of environment steps and of memory writes; the episode counter
    advanced by the number of returns appended, at least one; only the
    selected backend was called, and without morl the environment was reset
    exactly once per episode. *)
Theorem run_books_balance fuel :
  forall (w : World X) u w',
    run cfg fuel w = Ok (u, w') ->
    exists evs,
      ledger cfg w w' evs /\ (1 <= calls CTrainReturnAppend evs)%nat.
Proof.
  induction fuel as [| fuel IH]; intros w u w' H; [discriminate |].
  rewrite run_unfold in H.
  unbind H as u1 w1 He. unbind H as s w2 Hs. unret Hs.
  apply train_episode_ledger in He. destruct He as (e1 & L1 & C1 & _).
  destruct (steps w1 >? num_steps cfg).
  - unret H. exists e1. split; [exact L1 | lia].
  - apply IH in H. destruct H as (e2 & L2 & C2).
    exists (e2 ++ e1). split; [eapply ledger_trans; eassumption |].
    rewrite calls_app. lia.
Qed.

(** X6. [run()] stops within one episode of the budget: it returns with
    [steps] above [num_steps] and at most [max_episode_steps + 1] above the
    larger of [num_steps] and the step count it started from. *)
Theorem run_overshoot fuel :
  forall (w : World X) u w',
    run cfg fuel w = Ok (u, w') ->
    num_steps cfg < steps w' /\
    steps w <= steps w' /\
    steps w' <= Z.max (steps w) (num_steps cfg)
                + Z.max 0 (max_episode_steps cfg + 1).
Proof.
  induction fuel as [| fuel IH]; intros w u w' H; [discriminate |].
  rewrite run_unfold in H.
  unbind H as u1 w1 He. unbind H as s w2 Hs. unret Hs.
  apply train_episode_ledger in He. destruct He as (e1 & L1 & _ & Hb).
  destruct L1 as (_ & _ & S1 & _).
  destruct (steps w1 >? num_steps cfg) eqn:Hgt.
  - unret H. apply Z.gtb_lt in Hgt. lia.
  - rewrite Z.gtb_ltb in Hgt. apply Z.ltb_ge in Hgt.
    apply IH in H. lia.
Qed.

End RunFacts.

(** ** The run name and the seeds *)

Section RunNameFacts.

Import Ascii String.
Import RunName.

Local Notation "a +++ b" := (String.append a b)
  (at level 60, right associativity).

Lemma split_nonempty sep s : split sep s <> [].
Proof.
  destruct s as [| c t]; simpl; [discriminate |].
  destruct (Ascii.eqb c sep); [discriminate |].
  destruct (split sep t); discriminate.
Qed.

Lemma split_no_sep sep t : mem sep t = false -> split sep t = [t].
Proof.
  induction t as [| c t IH]; simpl; intro H; [reflexivity |].
  apply orb_false_iff in H. destruct H as [Hc Ht].
  rewrite Ascii.eqb_sym, Hc, (IH Ht). reflexivity.
Qed.

Lemma split_app sep s t :
  split sep (s +++ String sep t) = (split sep s ++ split sep t)%list.
Proof.
  induction s as [| c s IH]; simpl.
  - rewrite Ascii.eqb_refl. reflexivity.
  - destruct (Ascii.eqb c sep); [rewrite IH; reflexivity |].
    rewrite IH. pose proof (split_nonempty sep s) as Hne.
    destruct (split sep s) as [| p ps]; [congruence | reflexivity].
Qed.

Lemma split_pieces sep s :
  Forall (fun p => mem sep p = false) (split sep s).
Proof.
  induction s as [| c s IH]; simpl; [repeat constructor |].
  destruct (Ascii.eqb c sep) eqn:Hc; [constructor; [reflexivity | exact IH] |].
  destruct (split sep s) as [| p ps]; [repeat constructor |].
  - simpl. rewrite Ascii.eqb_sym, Hc. reflexivity.
  - inversion IH; subst. constructor; [| assumption].
    simpl. rewrite Ascii.eqb_sym, Hc. assumption.
Qed.

Lemma last_component sep s :
  mem sep (last (split sep s) EmptyString) = false.
Proof.
  pose proof (split_pieces sep s) as H.
  induction H as [| p ps Hp _ IH]; [reflexivity |].
  destruct ps as [| q qs]; [exact Hp | exact IH].
Qed.

Lemma rstrip_app chars s t :
  all_in chars t = true -> rstrip chars (s +++ t) = rstrip chars s.
Proof.
  intro Ht. induction s as [| c s IH]; simpl.
  - induction t as [| c t IH]; [reflexivity |].
    simpl in *. apply andb_true_iff in Ht. destruct Ht as [Hc Ht].
    rewrite (IH Ht), Hc. reflexivity.
  - rewrite IH. reflexivity.
Qed.

Lemma rstrip_fixed chars s :
  (forall c, last_char s = Some c -> mem c chars = false) ->
  rstrip chars s = s.
Proof.
  induction s as [| c t IH]; intro H; [reflexivity |].
  destruct t as [| d t'].
  - simpl. rewrite (H c eq_refl). reflexivity.
  - change (rstrip chars (String c (String d t')))
      with (match rstrip chars (String d t') with
            | EmptyString =>
                if mem c chars then EmptyString else String c EmptyString
            | String d0 t0 => String c (String d0 t0)
            end).
    rewrite IH; [reflexivity | exact H].
Qed.

Lemma rstrip_last chars s c :
  last_char (rstrip chars s) = Some c -> mem c chars = false.
Proof.
  induction s as [| c0 t IH]; simpl; [discriminate |].
  destruct (rstrip chars t) as [| d t'].
  - destruct (mem c0 chars) eqn:Hc; simpl; [discriminate |].
    intro H. inversion H; subst. exact Hc.
  - exact IH.
Qed.

Lemma rstrip_prefix chars s :
  exists suffix, s = rstrip chars s +++ suffix /\ all_in chars suffix = true.
Proof.
  induction s as [| c t IH]; [exists EmptyString; split; reflexivity |].
  destruct IH as (suffix & Heq & Hall). simpl.
  destruct (rstrip chars t) as [| d t'].
  - simpl in Heq. subst suffix. destruct (mem c chars) eqn:Hc.
    + exists (String c t). split; [reflexivity |]. simpl. rewrite Hc. exact Hall.
    + exists t. split; [reflexivity | exact Hall].
  - exists suffix. split; [| exact Hall]. simpl. simpl in Heq.
    rewrite <- Heq. reflexivity.
Qed.

Lemma mem_prefix c a b : mem c (a +++ b) = false -> mem c a = false.
Proof.
  induction a as [| d a IH]; simpl; [reflexivity |].
  intro H. apply orb_false_iff in H. destruct H as [H1 H2].
  rewrite H1. apply IH. exact H2.
Qed.

(** X12. The run name of [dir/stem.yaml] is [stem] exactly when [stem] does
    not end in one of the characters [.], [y], [a], [m], [l]: [rstrip]
    takes a set of characters, not a suffix. *)
Theorem run_name_round_trip (dir stem : string) :
  mem "/" stem = false ->
  (run_name (dir +++ String "/" (stem +++ ".yaml")) = stem <->
   forall c, last_char stem = Some c -> mem c ".yaml" = false).
Proof.
  intro Hstem. unfold run_name.
  assert (Hbase : mem "/" (stem +++ ".yaml") = false).
  { clear -Hstem. induction stem as [| c t IH]; [reflexivity |].
    simpl in *. apply orb_false_iff in Hstem. destruct Hstem as [H1 H2].
    rewrite H1. apply IH. exact H2. }
  rewrite split_app, (split_no_sep _ _ Hbase), last_last.
  rewrite rstrip_app by reflexivity.
  split.
  - intros Heq c Hc. apply (rstrip_last ".yaml" stem). rewrite Heq. exact Hc.
  - apply rstrip_fixed.
Qed.

(** X13. The run name is the last path component of the configuration file
    without a trailing run of characters from [.yaml]: it contains no [/],
    it does not end in one of those characters, and what was cut off
    consists of them only. *)
Theorem run_name_shape (config : string) :
  exists suffix,
    last (split "/" config) EmptyString = run_name config +++ suffix /\
    all_in ".yaml" suffix = true /\
    mem "/" (run_name config) = false /\
    forall c, last_char (run_name config) = Some c -> mem c ".yaml" = false.
Proof.
  unfold run_name.
  destruct (rstrip_prefix ".yaml" (last (split "/" config) EmptyString))
    as (suffix & Heq & Hall).
  exists suffix. split; [exact Heq | split; [exact Hall | split]].
  - apply (mem_prefix _ _ suffix). rewrite <- Heq. apply last_component.
  - intro c. apply rstrip_last.
Qed.



(** [config/qrdqn.yaml] gives [qrdqn]; [config/gamma.yaml] does not give
    [gamma], whose last character is one of the stripped ones. *)
Lemma run_name_round_trip_witness :
  mem "/" "qrdqn" = false /\
  run_name "config/qrdqn.yaml" = "qrdqn"%string /\
  mem "/" "gamma" = false /\
  run_name "config/gamma.yaml" <> "gamma"%string.
Proof.
  split; [reflexivity | split; [| split; [reflexivity |]]].
  - apply (proj2 (run_name_round_trip "config" "qrdqn" eq_refl)).
    intros c Hc. inversion Hc. reflexivity.
  - intro Heq.
    pose proof (proj1 (run_name_round_trip "config" "gamma" eq_refl) Heq
                  "a"%char eq_refl) as H.
    discriminate H.
Defined.

End RunNameFacts.

(** ** More concrete runs *)

Section MoreToyRuns.

Import Toy.

Local Abbreviation cfg1 := (config false 1).
Local Abbreviation w0 := (world0 3 1).
Local Abbreviation no_cap := (Edge.config true 2 3 4 (-1)).
Local Abbreviation no_eval := (Edge.config true 2 3 0 5).

(** The first episode of [cfg1] from [w0]: three steps, under the cap of
    six. *)
Lemma train_episode_length_witness :
  exists w' evs episode_return,
    train_episode cfg1 20 w0 = Ok (tt, w') /\
    trace w' = @TrainReturnAppend runtime episode_return
                 :: evs ++ @EnvReset runtime :: trace w0 /\
    steps w' - steps w0 = Z.of_nat (length (stored evs)) /\
    Z.of_nat (length (stored evs)) <= Z.max 0 (max_episode_steps cfg1 + 1) /\
    (1 <= length (stored evs))%nat /\
    steps w' = 3.
Proof.
  assert (He : exists w',
            train_episode cfg1 20 w0 = Ok (tt, w') /\ steps w' = 3).
  { eexists.
    split; [apply (returned_world _ w0); vm_compute; reflexivity |].
    vm_compute. reflexivity. }
  destruct He as (w' & He & Hs).
  destruct (train_episode_length cfg1 _ _ _ He)
    as (evs & r & Ht & Hd & Hb & Hone & _).
  exists w', evs, r.
  split; [exact He | split; [exact Ht | split; [exact Hd | split; [exact Hb |]]]].
  split; [apply Hone; discriminate | exact Hs].
Defined.

(** The sweep of [cfg1] from [w0], with a budget of one step and a cap of
    five: between two and seven steps, one or two resets. *)
Lemma evaluate_cost_bounds_witness :
  0 <= max_episode_steps cfg1 /\
  exists w' evs,
    evaluate cfg1 (eval_fuel cfg1) w0 = Ok (Fin 1, w') /\
    grew w0 w' evs /\
    num_eval_steps cfg1 < Z.of_nat (calls CTestEnvStep evs) /\
    Z.of_nat (calls CTestEnvStep evs)
      <= Z.max 0 (num_eval_steps cfg1) + max_episode_steps cfg1 + 1 /\
    1 <= Z.of_nat (calls CTestEnvReset evs) /\
    Z.of_nat (calls CTestEnvReset evs) <= Z.max 1 (num_eval_steps cfg1 + 1).
Proof.
  assert (Hmax : 0 <= max_episode_steps cfg1) by discriminate.
  split; [exact Hmax |].
  assert (Hev : exists w', evaluate cfg1 (eval_fuel cfg1) w0 = Ok (Fin 1, w'))
    by (eexists; apply (returned_world _ w0); vm_compute; reflexivity).
  destruct Hev as (w' & Hev).
  destruct (evaluate_cost_bounds cfg1 _ _ _ _ Hmax Hev) as (evs & H).
  exists w', evs. split; [exact Hev | exact H].
Defined.


(** With [max_episode_steps = -1] and a budget of one step the sweep runs
    out of any fuel. *)
Lemma evaluate_never_returns_witness :
  max_episode_steps no_cap < 0 /\
  0 <= num_eval_steps no_cap /\
  evaluate no_cap 50 w0 = OutOfFuel.
Proof.
  split; [reflexivity | split; [discriminate |]].
  apply evaluate_never_returns; [reflexivity | discriminate].
Defined.

(** With [max_episode_steps = -1], so does [run()]. *)
Lemma run_never_returns_witness :
  max_episode_steps no_cap < 0 /\
  steps w0 <= num_steps no_cap /\
  run no_cap 50 w0 = OutOfFuel.
Proof.
  split; [reflexivity | split; [discriminate |]].
  apply run_never_returns; [reflexivity | discriminate].
Defined.

(** With [eval_interval = 0] the first training step raises. *)
Lemma zero_interval_raises_witness :
  eval_interval no_eval = 0 /\
  0 <= max_episode_steps no_eval /\
  train_iteration no_eval 9 0 w0 = Raise ZeroDivisionError /\
  run no_eval 10 w0 = Raise ZeroDivisionError.
Proof.
  assert (Hz : target_update_interval no_eval = 0 \/
               update_interval no_eval = 0 \/ eval_interval no_eval = 0)
    by (right; right; reflexivity).
  assert (Hmax : 0 <= max_episode_steps no_eval) by discriminate.
  destruct (zero_interval_raises no_eval Hz) as (_ & Hit & Hrun).
  split; [reflexivity | split; [exact Hmax | split]].
  - apply Hit.
  - apply (Hrun Hmax 8%nat).
Defined.


(** Over the run of [cfg1] from [w0], which has stored nothing yet, no
    learning step comes before two stored transitions. *)
Lemma learning_waits_witness :
  steps_are_stored w0 /\
  gated_from cfg1 0 (trace w0) /\
  exists w',
    run cfg1 (run_fuel cfg1 w0) w0 = Ok (tt, w') /\
    steps_are_stored w' /\
    forall newer older,
      trace w' = newer ++ Learn :: older ->
      start_steps cfg1 <= Z.of_nat (length (stored older)).
Proof.
  assert (Hs : steps_are_stored w0) by reflexivity.
  assert (Hg : gated_from cfg1 0 (trace w0)) by exact I.
  split; [exact Hs | split; [exact Hg |]].
  assert (Hrun : exists w', run cfg1 (run_fuel cfg1 w0) w0 = Ok (tt, w'))
    by (eexists; apply (returned_world _ w0); vm_compute; reflexivity).
  destruct Hrun as (w' & Hrun).
  exists w'. split; [exact Hrun |].
  exact (learning_waits_for_start_steps cfg1 _ _ _ _ Hs Hg Hrun).
Defined.

(** The books of the run of [cfg1] from [w0]: six steps in two episodes. *)
Lemma run_books_balance_witness :
  exists w' evs,
    run cfg1 (run_fuel cfg1 w0) w0 = Ok (tt, w') /\
    ledger cfg1 w0 w' evs /\
    (1 <= calls CTrainReturnAppend evs)%nat /\
    steps w' = 6 /\ episodes w' = 2.
Proof.
  assert (Hrun : exists w',
              run cfg1 (run_fuel cfg1 w0) w0 = Ok (tt, w') /\
              steps w' = 6 /\ episodes w' = 2).
  { eexists.
    split; [apply (returned_world _ w0); vm_compute; reflexivity |].
    vm_compute. split; reflexivity. }
  destruct Hrun as (w' & Hrun & Hs & He).
  destruct (run_books_balance cfg1 _ _ _ _ Hrun) as (evs & Hl & Hone).
  exists w', evs.
  split; [exact Hrun | split; [exact Hl | split; [exact Hone | split; assumption]]].
Defined.

(** The same run stops at step 6, past [num_steps = 5] and within the
    bound 5 + 6. *)
Lemma run_overshoot_witness :
  exists w',
    run cfg1 (run_fuel cfg1 w0) w0 = Ok (tt, w') /\
    num_steps cfg1 < steps w' /\
    steps w0 <= steps w' /\
    steps w' <= Z.max (steps w0) (num_steps cfg1)
                + Z.max 0 (max_episode_steps cfg1 + 1).
Proof.
  assert (Hrun : exists w', run cfg1 (run_fuel cfg1 w0) w0 = Ok (tt, w'))
    by (eexists; apply (returned_world _ w0); vm_compute; reflexivity).
  destruct Hrun as (w' & Hrun).
  exists w'. split; [exact Hrun |].
  exact (run_overshoot cfg1 _ _ _ _ Hrun).
Defined.

End MoreToyRuns.
